(** * SRV resolution of psycopg connection parameters ([psycopg/_dns.py])

    A shallow embedding of [Rfc2782Resolver]: the attempt classifier
    [_get_attempts], the blocking and the coroutine lookups, the selector
    [_get_solved_entries] with the RFC 2782 ordering [sort_rfc2782], and the
    parameter rebuilder [_return_params]. *)

From Stdlib Require Import ZArith NArith Ascii String List Permutation Sorted Lia.
From stdpp Require Import base strings list sorting gmap pretty.

Local Open Scope Z_scope.

(** ** Python string methods used by the module

    Python [str] values are modelled as [string], one [ascii] per character;
    the methods below are the ones [_dns.py] calls.  [lower] changes the
    letters A-Z only, which is all the comparison with "srv" looks at. *)
Module PyStr.

(** [s.split(sep)] for a one-character separator: never returns an empty
    list, [''.split(',') == ['']]. *)
Fixpoint split (sep : ascii) (s : string) : list string :=
  match s with
  | EmptyString => [EmptyString]
  | String c s' =>
      if Ascii.eqb c sep then EmptyString :: split sep s'
      else match split sep s' with
           | [] => [String c EmptyString]
           | w :: ws => String c w :: ws
           end
  end.

(** [sep.join(l)] *)
Fixpoint join (sep : string) (l : list string) : string :=
  match l with
  | [] => EmptyString
  | [w] => w
  | w :: ws => w +:+ sep +:+ join sep ws
  end.

Definition lower_char (c : ascii) : ascii :=
  let n := N_of_ascii c in
  if ((65 <=? n) && (n <=? 90))%N then ascii_of_N (n + 32) else c.

(** [s.lower()] *)
Fixpoint lower (s : string) : string :=
  match s with
  | EmptyString => EmptyString
  | String c s' => String (lower_char c) (lower s')
  end.

(** [s.rstrip(c)] for a one-character set. *)
Fixpoint rstrip (c : ascii) (s : string) : string :=
  match s with
  | EmptyString => EmptyString
  | String a s' =>
      match rstrip c s' with
      | EmptyString => if Ascii.eqb a c then EmptyString else String a EmptyString
      | r => String a r
      end
  end.

(** Truth value of a string: empty is false. *)
Definition truthy (s : string) : bool :=
  match s with EmptyString => false | String _ _ => true end.

(** Longest prefix of [s] without the character [c], and what follows. *)
Fixpoint span_not (c : ascii) (s : string) : string * string :=
  match s with
  | EmptyString => (EmptyString, EmptyString)
  | String a s' =>
      if Ascii.eqb a c then (EmptyString, s)
      else let '(p, r) := span_not c s' in (String a p, r)
  end.

(** [c in s] for a character [c]. *)
Fixpoint contains (c : ascii) (s : string) : bool :=
  match s with
  | EmptyString => false
  | String a s' => Ascii.eqb a c || contains c s'
  end.

End PyStr.

(** ** Exceptions and outcomes *)

Inductive exn : Type :=
| OperationalError (msg : string)
| ValueError.

(** What running a piece of code gives: a value, a raised exception, or the
    loop bound of the model reached ([OutOfFuel], shown below never to
    happen). *)
Inductive outcome (A : Type) : Type :=
| Return (a : A)
| Raise (e : exn)
| OutOfFuel.
Arguments Return {A} a.
Arguments Raise {A} e.
Arguments OutOfFuel {A}.

(** ** Data *)

(** An SRV answer as [dns.rdtypes.IN.SRV] holds it: priority, weight and port
    are unsigned 16-bit fields of the record; [srv_target] is
    [str(entry.target)]. *)
Record SRV : Type := mkSRV {
  srv_priority : N;
  srv_weight : N;
  srv_port : N;
  srv_target : string
}.

(** [class HostPort(NamedTuple)] *)
Record HostPort : Type := mkHostPort {
  host : string;
  port : string;
  totry : bool;
  target : option string
}.

(** [HostPort(host=h, port=p)] with the defaults [totry=False, target=None]. *)
Definition HostPort_ (h p : string) : HostPort := mkHostPort h p false None.

Global Instance SRV_eq_dec : EqDecision SRV.
Proof. solve_decision. Defined.

Global Instance HostPort_eq_dec : EqDecision HostPort.
Proof. solve_decision. Defined.

(** ** Stable sort by key

    [list.sort(key=...)] and [sorted(...)] are stable; a stable insertion
    sort gives the same list. *)
Section SortBy.
Context {A : Type} (key : A → N).

Fixpoint insert_by (x : A) (l : list A) : list A :=
  match l with
  | [] => [x]
  | y :: l' => if (key x <=? key y)%N then x :: l else y :: insert_by x l'
  end.

Definition sort_by (l : list A) : list A := foldr insert_by [] l.

(** The order the sort puts the list in. *)
Definition key_le (a b : A) : Prop := (key a ≤ key b)%N.
End SortBy.

(** ** State and exceptions

    Code that has a state [S] and may raise: a function from the state to an
    outcome and the state it leaves. *)
Definition ST (S A : Type) : Type := S → outcome A * S.

Definition ret {S A} (a : A) : ST S A := λ s, (Return a, s).

Definition raise {S A} (e : exn) : ST S A := λ s, (Raise e, s).

Definition bind {S A B} (m : ST S A) (f : A → ST S B) : ST S B :=
  λ s, match m s with
       | (Return a, s') => f a s'
       | (Raise e, s') => (Raise e, s')
       | (OutOfFuel, s') => (OutOfFuel, s')
       end.

Notation "'do' x <- m ; k" := (bind m (λ x, k))
  (at level 10, x name, m at level 100, k at level 200).

(** [d.get(k, dflt)].  The connection parameters and [os.environ] are
    dictionaries from strings to strings ([port] goes through [str()] in the
    source, which leaves a string as it is). *)
Definition dict_get (d : gmap string string) (k dflt : string) : string :=
  default dflt (d !! k).

(** ** The resolver class *)
Section Rfc2782Resolver.
(** [Rng] is the state of the random source and [draw a b] what it answers
    to [randint(a, b)]; both are left open so that any stub can be plugged
    in.  [resolver] and [async_resolver] are the two module-level dnspython
    resolvers: what [resolve(name, "SRV")] answers, [None] when it raises
    [DNSException]. *)
Context {Rng : Type}.
Variable draw : Z → Z → Rng → Z * Rng.
Variable resolver : string → option (list SRV).
Variable async_resolver : string → option (list SRV).

(** Code that only touches the random source. *)
Definition R (A : Type) : Type := ST Rng A.

(** [random.randint(a, b)]: raises [ValueError] on an empty range. *)
Definition randint (a b : Z) : R Z :=
  λ g, if a <=? b then let '(r, g') := draw a b g in (Return r, g')
       else (Raise ValueError, g).

(** *** [sort_rfc2782] *)

(** [priorities[entry.priority].append(entry)] on a [defaultdict(list)];
    the dict keeps its keys in insertion order. *)
Fixpoint dict_append (pri : N) (entry : SRV) (d : list (N * list SRV))
  : list (N * list SRV) :=
  match d with
  | [] => [(pri, [entry])]
  | (k, es) :: d' =>
      if (k =? pri)%N then (k, es ++ [entry]) :: d'
      else (k, es) :: dict_append pri entry d'
  end.

(** The first loop of [sort_rfc2782]. *)
Definition divide_by_priority (ans : list SRV) : list (N * list SRV) :=
  foldl (λ d entry, dict_append (srv_priority entry) entry d) [] ans.

(** [sum(ent.weight for ent in entries)] *)
Definition sum_weights (entries : list SRV) : Z :=
  foldr (λ ent acc, Z.of_N (srv_weight ent) + acc) 0 entries.

(** The inner [for i, ent in enumerate(entries)] loop, entered at
    [entries[i] = ent] with [rest = entries[i+1:]]: the pair left in
    [(i, ent)] when the loop breaks or runs off the end. *)
Fixpoint walk (r csum : Z) (i : nat) (ent : SRV) (rest : list SRV) : nat * SRV :=
  let csum := csum + Z.of_N (srv_weight ent) in
  if r <=? csum then (i, ent)
  else match rest with
       | [] => (i, ent)
       | ent' :: rest' => walk r csum (S i) ent' rest'
       end.

(** [while entries: ...]; [fuel] bounds the number of iterations. *)
Fixpoint weighted_loop (fuel : nat) (entries : list SRV) (total_weight : Z)
    (out : list SRV) : R (list SRV) :=
  match entries with
  | [] => ret out
  | ent0 :: rest =>
      match fuel with
      | O => λ g, (OutOfFuel, g)
      | S fuel' =>
          do r <- randint 0 total_weight;
          let '(i, ent) := walk r 0 0 ent0 rest in
          weighted_loop fuel' (delete i entries)
            (total_weight - Z.of_N (srv_weight ent)) (out ++ [ent])
      end
  end.

(** The body of [for pri, entries in sorted(priorities.items())]. *)
Definition sort_tier (entries : list SRV) (out : list SRV) : R (list SRV) :=
  match entries with
  | [e] => ret (out ++ [e])
  | _ =>
      let entries := sort_by srv_weight entries in
      let total_weight := sum_weights entries in
      weighted_loop (length entries) entries total_weight out
  end.

Fixpoint sort_tiers (tiers : list (N * list SRV)) (out : list SRV) : R (list SRV) :=
  match tiers with
  | [] => ret out
  | (_, entries) :: tiers' =>
      do out' <- sort_tier entries out;
      sort_tiers tiers' out'
  end.

(** [Rfc2782Resolver.sort_rfc2782] *)
Definition sort_rfc2782 (ans : list SRV) : R (list SRV) :=
  sort_tiers (sort_by fst (divide_by_priority ans)) [].

(** *** [re_srv_rr] *)

(** [_[^\.]+\.] matched at the start of [s]: what is left after it. *)
Definition match_label (s : string) : option string :=
  match s with
  | String "_"%char s1 =>
      match PyStr.span_not "."%char s1 with
      | (String _ _, String _ rest) => Some rest
      | _ => None
      end
  | _ => None
  end.

(** [re_srv_rr.match(host)]: [None] when there is no match, else the group
    [target].  [.+] stops at a newline and needs one character. *)
Definition re_srv_rr_match (h : string) : option string :=
  match match_label h with
  | Some r1 =>
      match match_label r1 with
      | Some r2 =>
          match fst (PyStr.span_not "010"%char r2) with
          | EmptyString => None
          | t => Some t
          end
      | None => None
      end
  | None => None
  end.

(** *** [_get_attempts] *)

(** One turn of [for host, port in zip(hosts_in, ports_in)]. *)
Definition classify (st : list HostPort * bool) (hp : string * string)
  : list HostPort * bool :=
  let '(out, srv_found) := st in
  let '(h, p) := hp in
  let m := re_srv_rr_match h in
  if bool_decide (is_Some m) || String.eqb (PyStr.lower p) "srv"
  then (out ++ [mkHostPort h p true m], true)
  else (out ++ [HostPort_ h p], srv_found).

Definition mismatch_msg (nhosts nports : nat) : string :=
  "cannot match " +:+ pretty nhosts +:+ " hosts with " +:+ pretty nports
    +:+ " port numbers".

(** [_get_attempts]; [env] is [os.environ]. *)
Definition _get_attempts (params env : gmap string string)
  : outcome (list HostPort) :=
  if PyStr.truthy (dict_get params "hostaddr" (dict_get env "PGHOSTADDR" ""))
  then Return []
  else
    let host_arg := dict_get params "host" (dict_get env "PGHOST" "") in
    let hosts_in := PyStr.split ","%char host_arg in
    let port_arg := dict_get params "port" (dict_get env "PGPORT" "") in
    let ports_in := PyStr.split ","%char port_arg in
    let ports_in :=
      if Nat.eqb (length ports_in) 1
      then mjoin (replicate (length hosts_in) ports_in)
      else ports_in in
    if negb (Nat.eqb (length ports_in) (length hosts_in))
    then Raise (OperationalError
                  (mismatch_msg (length hosts_in) (length ports_in)))
    else
      let '(out, srv_found) := foldl classify ([], false) (zip hosts_in ports_in) in
      Return (if srv_found then out else []).

(** *** [_get_solved_entries] *)

Definition solved_entry (entry : SRV) : HostPort :=
  HostPort_ (PyStr.rstrip "."%char (srv_target entry)) (pretty (srv_port entry)).

Definition _get_solved_entries (hp : HostPort) (entries : list SRV)
  : R (list HostPort) :=
  match entries with
  | [] =>
      match target hp with
      | Some t =>
          if PyStr.truthy t && negb (String.eqb (PyStr.lower (port hp)) "srv")
          then ret [HostPort_ t (port hp)]
          else ret []
      | None => ret []
      end
  | entry0 :: _ =>
      if Nat.eqb (length entries) 1 && String.eqb (srv_target entry0) "."
      then ret []
      else
        do sorted <- sort_rfc2782 entries;
        ret (map solved_entry sorted)
  end.

(** *** [_return_params] *)

Definition _return_params {S} (params : gmap string string) (hps : list HostPort)
  : ST S (gmap string string) :=
  match hps with
  | [] => raise (OperationalError "no host found after SRV RR lookup")
  | _ =>
      let out := params in
      let out := <["host" := PyStr.join "," (map host hps)]> out in
      let out := <["port" := PyStr.join "," (map port hps)]> out in
      ret out
  end.

(** *** The blocking path *)

(** The random source and the names asked to the resolver so far. *)
Record World : Type := mkWorld {
  w_rng : Rng;
  w_queries : list string
}.

Definition IO (A : Type) : Type := ST World A.

(** Run code on the random source of the world. *)
Definition on_rng {A} (m : R A) : IO A :=
  λ w, let '(o, g) := m (w_rng w) in (o, mkWorld g (w_queries w)).

(** [resolver.resolve(name, "SRV")] under [try ... except DNSException]. *)
Definition query (name : string) : IO (list SRV) :=
  λ w, (Return (match resolver name with Some ans => ans | None => [] end),
        mkWorld (w_rng w) (w_queries w ++ [name])).

Definition _resolve_srv (hp : HostPort) : IO (list HostPort) :=
  do ans <- query (host hp);
  on_rng (_get_solved_entries hp ans).

(** The [for hp in attempts] loop of [resolve]. *)
Fixpoint resolve_loop (attempts hps : list HostPort) : IO (list HostPort) :=
  match attempts with
  | [] => ret hps
  | hp :: attempts' =>
      if totry hp
      then do found <- _resolve_srv hp; resolve_loop attempts' (hps ++ found)
      else resolve_loop attempts' (hps ++ [hp])
  end.

(** [Rfc2782Resolver.resolve] *)
Definition resolve (params env : gmap string string) : IO (gmap string string) :=
  match _get_attempts params env with
  | Return [] => ret params
  | Return attempts =>
      do hps <- resolve_loop attempts [];
      _return_params params hps
  | Raise e => raise e
  | OutOfFuel => λ w, (OutOfFuel, w)
  end.

(** *** The coroutine path *)

(** A coroutine run up to its next [await] on the resolver, or to its end. *)
Inductive Task (A : Type) : Type :=
| Done (a : A)
| Await (name : string) (k : option (list SRV) → Task A).
Arguments Done {A} a.
Arguments Await {A} name k.

Fixpoint task_bind {A B} (t : Task A) (f : A → Task B) : Task B :=
  match t with
  | Done a => f a
  | Await name k => Await name (λ ans, task_bind (k ans) f)
  end.

(** An [async def] that also uses the random source. *)
Definition Coro (A : Type) : Type := Rng → Task (outcome A * Rng).

Definition coro_of {A} (m : R A) : Coro A := λ g, Done (m g).

Definition coro_bind {A B} (c : Coro A) (f : A → Coro B) : Coro B :=
  λ g, task_bind (c g)
         (λ '(o, g'), match o with
                      | Return a => f a g'
                      | Raise e => Done (Raise e, g')
                      | OutOfFuel => Done (OutOfFuel, g')
                      end).

(** [await async_resolver.resolve(name, "SRV")] under
    [try ... except DNSException]. *)
Definition query_async (name : string) : Coro (list SRV) :=
  λ g, Await name
         (λ r, Done (Return (match r with Some ans => ans | None => [] end), g)).

Definition _resolve_srv_async (hp : HostPort) : Coro (list HostPort) :=
  coro_bind (query_async (host hp))
    (λ ans, coro_of (_get_solved_entries hp ans)).

Fixpoint resolve_async_loop (attempts hps : list HostPort) : Coro (list HostPort) :=
  match attempts with
  | [] => coro_of (ret hps)
  | hp :: attempts' =>
      if totry hp
      then coro_bind (_resolve_srv_async hp)
             (λ found, resolve_async_loop attempts' (hps ++ found))
      else resolve_async_loop attempts' (hps ++ [hp])
  end.

(** [Rfc2782Resolver.resolve_async] *)
Definition resolve_async (params env : gmap string string)
  : Coro (gmap string string) :=
  match _get_attempts params env with
  | Return [] => coro_of (ret params)
  | Return attempts =>
      coro_bind (resolve_async_loop attempts [])
        (λ hps, coro_of (_return_params params hps))
  | Raise e => coro_of (raise e)
  | OutOfFuel => λ g, Done (OutOfFuel, g)
  end.

(** The event loop: every [await] is answered by the async resolver, and
    the name asked is recorded. *)
Fixpoint run_task {A} (t : Task A) (queries : list string) : A * list string :=
  match t with
  | Done a => (a, queries)
  | Await name k => run_task (k (async_resolver name)) (queries ++ [name])
  end.

Definition run_until_complete {A} (c : Coro A) : IO A :=
  λ w, let '((o, g), qs) := run_task (c (w_rng w)) (w_queries w) in
       (o, mkWorld g qs).

End Rfc2782Resolver.

Arguments Done {A} a.
Arguments Await {A} name k.
Arguments mkWorld {Rng} _ _.
Arguments w_rng {Rng} _.
Arguments w_queries {Rng} _.

(** ** Notions used in the statements *)

(** What a result looks like once [out] is put in front of it. *)
Definition with_prefix {Rng} (out : list SRV) (res : outcome (list SRV) * Rng)
  : outcome (list SRV) * Rng :=
  match res with
  | (Return x, g) => (Return (out ++ x), g)
  | other => other
  end.

(** What [priorities] holds after the first loop: one tier per priority
    met, each with the answers of that priority in the order they came. *)
Record tiers_of (ans : list SRV) (d : list (N * list SRV)) : Prop := {
  tiers_NoDup : NoDup (d.*1);
  tiers_elem k es : (k, es) ∈ d →
    es = filter (λ e, srv_priority e = k) ans ∧ es ≠ [];
  tiers_complete e : e ∈ ans → srv_priority e ∈ d.*1
}.

(** Records made by the loop of [_get_attempts]: flagged ones carry the
    matched target, the others none. *)
Definition classified (hp : HostPort) : Prop :=
  target hp = (if totry hp then re_srv_rr_match (host hp) else None).

(** ** The documented walk

    The weighted selection as the design text words it, to be compared with
    the loop of [sort_rfc2782]: the remaining entries are walked with a
    running sum, the first entry whose cumulative sum reaches or exceeds the
    draw is emitted and removed, its weight is subtracted from the total, and
    this is repeated until no entry remains. *)
Section DocumentedWalk.
Context {Rng : Type}.
Variable draw : Z → Z → Rng → Z * Rng.

(** The running sum once the entry at position [k] has been added. *)
Definition cumulative_sum (remaining : list SRV) (k : nat) : Z :=
  sum_weights (take (S k) remaining).

(** Position of the first entry whose cumulative sum reaches or exceeds
    [r], if there is one. *)
Definition first_reaching (r : Z) (remaining : list SRV) : option nat :=
  snd <$> list_find (λ k, r ≤ cumulative_sum remaining k)
                    (seq 0 (length remaining)).

Fixpoint documented_walk (n : nat) (remaining : list SRV) (totalWeight : Z)
    (g : Rng) : option (list SRV * Rng) :=
  match remaining, n with
  | [], _ => Some ([], g)
  | _ :: _, O => None
  | _ :: _, S n' =>
      let '(r, g1) := draw 0 totalWeight g in
      k ← first_reaching r remaining;
      e ← remaining !! k;
      '(emitted, g2) ←
        documented_walk n' (take k remaining ++ drop (S k) remaining)
          (totalWeight - Z.of_N (srv_weight e)) g1;
      Some (e :: emitted, g2)
  end.

(** The order documented for a tier of several entries. *)
Definition documented_order (tier : list SRV) (g : Rng)
  : option (list SRV * Rng) :=
  documented_walk (length tier) (sort_by srv_weight tier) (sum_weights tier) g.

End DocumentedWalk.

(** ** The module-level functions *)
Section ModuleFunctions.
Context {Rng : Type}.
Variable draw : Z → Z → Rng → Z * Rng.
Variable resolver : string → option (list SRV).

(** [resolve_srv(params)]: [Rfc2782Resolver().resolve(params)]; the resolver
    object has no state of its own. *)
Definition resolve_srv (params env : gmap string string)
  : @IO Rng (gmap string string) :=
  resolve draw resolver params env.

(** [resolve_srv_async(params)] *)
Definition resolve_srv_async (params env : gmap string string)
  : @Coro Rng (gmap string string) :=
  resolve_async draw params env.

End ModuleFunctions.

(** ** Notions used in the further properties *)

(** [s.endswith(c)] for a character [c]. *)
Fixpoint ends_with (c : ascii) (s : string) : bool :=
  match s with
  | EmptyString => false
  | String a EmptyString => Ascii.eqb a c
  | String _ s' => ends_with c s'
  end.

(** [c * n] *)
Fixpoint repeat_char (c : ascii) (n : nat) : string :=
  match n with
  | O => EmptyString
  | S n' => String c (repeat_char c n')
  end.

(** A string that can stand in a comma-separated list. *)
Definition no_comma (s : string) : Prop := PyStr.contains "," s = false.

(** The host and port lists the classifier works on. *)
Definition hosts_of (params env : gmap string string) : list string :=
  PyStr.split "," (dict_get params "host" (dict_get env "PGHOST" "")).

Definition ports_of (params env : gmap string string) : list string :=
  PyStr.split "," (dict_get params "port" (dict_get env "PGPORT" "")).

(** The record the loop of [_get_attempts] makes of one host and port. *)
Definition attempt_of (hp : string * string) : HostPort :=
  let m := re_srv_rr_match hp.1 in
  if bool_decide (is_Some m) || String.eqb (PyStr.lower hp.2) "srv"
  then mkHostPort hp.1 hp.2 true m
  else HostPort_ hp.1 hp.2.

(** A record whose strings can stand in the comma-separated lists. *)
Definition comma_free (hp : HostPort) : Prop :=
  no_comma (host hp) ∧ no_comma (port hp)
  ∧ ∀ t, target hp = Some t → no_comma t.

(** A resolved record: it asks for no further lookup. *)
Definition settled (hp : HostPort) : Prop :=
  totry hp = false ∧ target hp = None.

(** A random source that also counts the calls made to it. *)
Definition counted {Rng} (draw : Z → Z → Rng → Z * Rng) (a b : Z)
    (g : nat * Rng) : Z * (nat * Rng) :=
  let '(r, g') := draw a b g.2 in (r, (S g.1, g')).

(** The answers that share their priority with another answer. *)
Definition draws_needed (ans : list SRV) : nat :=
  length (filter (λ e, 2 ≤ length (filter (λ e', srv_priority e' = srv_priority e)
                                     ans))%nat ans).

(** A result with the count of the calls put beside the random source. *)
Definition with_count {Rng A} (n : nat) (res : outcome A * Rng)
  : outcome A * (nat * Rng) :=
  (res.1, (n, res.2)).

(** ** Sample data for the worked examples *)
Module Sample.

(** A stub for the random source: the draws to hand out, each one kept
    within the range asked for; the lower bound once none is left. *)
Definition stub_draw (a b : Z) (g : list Z) : Z * list Z :=
  match g with
  | [] => (a, [])
  | r :: g' => (Z.max a (Z.min r b), g')
  end.

(** One tier of three answers with weights 90, 0 and 10. *)
Definition one_tier : list SRV :=
  [mkSRV 0 90 5432 "c.example.com."; mkSRV 0 0 5432 "a.example.com.";
   mkSRV 0 10 5432 "b.example.com."].

(** Answers of priorities 20 and 10. *)
Definition two_tiers : list SRV :=
  [mkSRV 20 5 5433 "far.example.com."; mkSRV 10 1 5432 "pg1.example.com.";
   mkSRV 20 0 5433 "away.example.com."; mkSRV 10 9 5432 "pg2.example.com."].

Definition srv_host : string := "_postgresql._tcp.db.example.com".

Definition srv_params (p : string) : gmap string string :=
  <["port" := p]> {["host" := srv_host]}.

Definition plain_params (h p : string) : gmap string string :=
  <["port" := p]> {["host" := h]}.

(** A resolver that knows [srv_host] only. *)
Definition one_answer (name : string) : option (list SRV) :=
  if String.eqb name srv_host
  then Some [mkSRV 0 0 5432 "pg1.example.com."]
  else None.

Definition world0 : @World (list Z) := mkWorld [] [].

End Sample.

(** ** Sample data for the further properties *)
Module MoreSamples.

(** An SRV name and a plain host sharing one port. *)
Definition mixed_params : gmap string string :=
  Sample.plain_params "_postgresql._tcp.db.example.com,db2.example.com" "5432".

Definition flagged : HostPort :=
  mkHostPort Sample.srv_host "5432" true (Some "db.example.com").

Definition plain : HostPort :=
  mkHostPort "db2.example.com" "5432" false None.

(** A resolver whose lookups all fail. *)
Definition no_answer (name : string) : option (list SRV) := None.

(** Parameters with an empty host address, and an environment with one. *)
Definition explicit_params : gmap string string :=
  <["hostaddr" := ""]> (Sample.srv_params "5432").

Definition addr_env : gmap string string := {["PGHOSTADDR" := "10.0.0.1"]}.

(** Two answers of different priorities. *)
Definition distinct : list SRV :=
  [mkSRV 20 5 5433 "far.example.com."; mkSRV 10 1 5432 "pg1.example.com."].

End MoreSamples.

(** * Properties *)

(** ** Filters that keep nothing or everything *)
Section FilterFacts.
Context {A : Type} (P : A → Prop) `{!∀ x, Decision (P x)}.

Lemma filter_none (l : list A) : Forall (λ x, ¬ P x) l → filter P l = [].
Proof.
  induction 1 as [|x l Hx _ IH]; [done|].
  by rewrite filter_cons, decide_False.
Qed.

Lemma filter_all (l : list A) : Forall P l → filter P l = l.
Proof.
  induction 1 as [|x l Hx _ IH]; [done|].
  by rewrite filter_cons, decide_True, IH.
Qed.
End FilterFacts.

(** ** The stable sort *)
Section SortByFacts.
Context {A : Type} (key : A → N).

Lemma insert_by_Permutation x (l : list A) : insert_by key x l ≡ₚ x :: l.
Proof.
  induction l as [|y l IH]; simpl; [done|].
  destruct (key x <=? key y)%N; [done|].
  rewrite IH. apply Permutation_swap.
Qed.

Lemma sort_by_Permutation (l : list A) : sort_by key l ≡ₚ l.
Proof.
  induction l as [|x l IH]; simpl; [done|].
  rewrite insert_by_Permutation. by f_equiv.
Qed.

Lemma sort_by_length (l : list A) : length (sort_by key l) = length l.
Proof. apply Permutation_length, sort_by_Permutation. Qed.

Lemma insert_by_sorted x (l : list A) :
  StronglySorted (key_le key) l → StronglySorted (key_le key) (insert_by key x l).
Proof.
  induction 1 as [|y l Hl IH Hy]; simpl.
  - repeat constructor.
  - destruct (N.leb_spec (key x) (key y)) as [Hxy|Hxy].
    + constructor; [by constructor|].
      constructor; [done|].
      eapply Forall_impl; [exact Hy|]. unfold key_le. intros; lia.
    + constructor; [done|].
      rewrite insert_by_Permutation. constructor; [|done].
      unfold key_le. lia.
Qed.

Lemma sort_by_sorted (l : list A) : StronglySorted (key_le key) (sort_by key l).
Proof.
  induction l as [|x l IH]; simpl; [constructor|]. by apply insert_by_sorted.
Qed.

Lemma insert_by_below x (l : list A) :
  Forall (key_le key x) l → insert_by key x l = x :: l.
Proof.
  destruct 1 as [|y l Hy _]; simpl; [done|].
  unfold key_le in Hy. by destruct (N.leb_spec (key x) (key y)); [|lia].
Qed.

(** Sorting commutes with a filter. *)
Lemma insert_by_filter (P : A → Prop) `{!∀ x, Decision (P x)} x (l : list A) :
  StronglySorted (key_le key) l →
  filter P (insert_by key x l)
  = if decide (P x) then insert_by key x (filter P l) else filter P l.
Proof.
  induction 1 as [|y l Hl IH Hy]; simpl.
  - rewrite filter_cons, filter_nil. by destruct (decide (P x)).
  - destruct (N.leb_spec (key x) (key y)) as [Hxy|Hxy].
    + rewrite filter_cons. destruct (decide (P x)); [|done].
      rewrite insert_by_below; [done|].
      apply Forall_forall. intros z [_ Hz]%list_elem_of_filter.
      apply elem_of_cons in Hz as [->|Hz]; [done|].
      rewrite Forall_forall in Hy. specialize (Hy z Hz).
      unfold key_le in *. lia.
    + rewrite !(filter_cons _ y), IH.
      destruct (decide (P x)), (decide (P y)); simpl; try done.
      by destruct (N.leb_spec (key x) (key y)); [lia|].
Qed.

Lemma sort_by_filter (P : A → Prop) `{!∀ x, Decision (P x)} (l : list A) :
  filter P (sort_by key l) = sort_by key (filter P l).
Proof.
  induction l as [|x l IH]; simpl; [done|].
  rewrite insert_by_filter by apply sort_by_sorted.
  rewrite filter_cons, IH. by destruct (decide (P x)).
Qed.
End SortByFacts.

(** ** The weighted walk of one tier and the loop over the tiers *)
Section OrderingFacts.
Context {Rng : Type} (draw : Z → Z → Rng → Z * Rng).

Lemma sum_weights_nonneg entries : 0 ≤ sum_weights entries.
Proof. induction entries; simpl; lia. Qed.

Lemma sum_weights_app l1 l2 :
  sum_weights (l1 ++ l2) = sum_weights l1 + sum_weights l2.
Proof. induction l1; simpl; lia. Qed.

Lemma sum_weights_Permutation l1 l2 :
  l1 ≡ₚ l2 → sum_weights l1 = sum_weights l2.
Proof. induction 1; simpl; lia. Qed.

Lemma sum_weights_delete entries i e :
  entries !! i = Some e →
  sum_weights (delete i entries) = sum_weights entries - Z.of_N (srv_weight e).
Proof.
  intros H%delete_Permutation%sum_weights_Permutation. simpl in H. lia.
Qed.

(** The inner loop stops on an entry of the list. *)
Lemma walk_lookup rest : ∀ r csum i ent,
  ∃ k e, walk r csum i ent rest = ((i + k)%nat, e) ∧ (ent :: rest) !! k = Some e.
Proof.
  induction rest as [|ent' rest IH]; intros r csum i ent; simpl.
  - exists 0%nat, ent. rewrite Nat.add_0_r. by destruct (r <=? _).
  - destruct (r <=? csum + Z.of_N (srv_weight ent)).
    + exists 0%nat, ent. by rewrite Nat.add_0_r.
    + destruct (IH r (csum + Z.of_N (srv_weight ent)) (S i) ent')
        as (k & e & Hw & Hk).
      exists (S k), e. rewrite Hw. split; [f_equal; lia|done].
Qed.

Lemma with_prefix_app out1 out2 (res : outcome (list SRV) * Rng) :
  with_prefix out1 (with_prefix out2 res) = with_prefix (out1 ++ out2) res.
Proof. destruct res as [[x| |] g]; simpl; by rewrite ?app_assoc. Qed.

(** The accumulator [out] is only ever appended to. *)
Lemma weighted_loop_acc fuel : ∀ entries tw out g,
  weighted_loop draw fuel entries tw out g
  = with_prefix out (weighted_loop draw fuel entries tw [] g).
Proof.
  induction fuel as [|fuel IH]; intros [|ent0 rest] tw out g; simpl;
    unfold ret; rewrite ?app_nil_r; try done.
  unfold bind, randint. destruct (0 <=? tw); [|done].
  destruct (draw 0 tw g) as [r g1].
  destruct (walk r 0 0 ent0 rest) as [i ent].
  rewrite IH, (IH _ _ ([] ++ [ent])), with_prefix_app. done.
Qed.

(** The [while] loop ends, and emits its entries in some order. *)
Lemma weighted_loop_total fuel : ∀ entries g,
  (length entries ≤ fuel)%nat →
  ∃ x g', weighted_loop draw fuel entries (sum_weights entries) [] g
          = (Return x, g') ∧ x ≡ₚ entries.
Proof.
  induction fuel as [|fuel IH]; intros [|ent0 rest] g Hlen;
    try (by exists [], g); [simpl in Hlen; lia|].
  cbn [weighted_loop]. unfold bind at 1, randint.
  pose proof (sum_weights_nonneg (ent0 :: rest)) as Hnn.
  destruct (Z.leb_spec 0 (sum_weights (ent0 :: rest))); [|lia].
  destruct (draw 0 (sum_weights (ent0 :: rest)) g) as [r g1].
  destruct (walk_lookup rest r 0 0%nat ent0) as (k & e & -> & Hk).
  cbn [Nat.add]. rewrite weighted_loop_acc, <-(sum_weights_delete _ _ _ Hk).
  destruct (IH (delete k (ent0 :: rest)) g1) as (x & g' & -> & Hx).
  { rewrite length_delete by eauto. simpl in *. lia. }
  exists (e :: x), g'. split; [done|].
  rewrite Hx. symmetry. by apply delete_Permutation.
Qed.

Lemma sort_tier_acc entries out g :
  sort_tier draw entries out g = with_prefix out (sort_tier draw entries [] g).
Proof.
  unfold sort_tier. destruct entries as [|e [|e' rest]];
    try apply weighted_loop_acc. done.
Qed.

Lemma sort_tier_total entries g :
  ∃ x g', sort_tier draw entries [] g = (Return x, g') ∧ x ≡ₚ entries.
Proof.
  unfold sort_tier. destruct entries as [|e [|e' rest]].
  - by exists [], g.
  - by exists [e], g.
  - set (entries := e :: e' :: rest).
    destruct (weighted_loop_total (length (sort_by srv_weight entries))
                (sort_by srv_weight entries) g) as (x & g' & -> & Hx); [done|].
    exists x, g'. split; [done|]. by rewrite Hx, sort_by_Permutation.
Qed.

Lemma sort_tiers_acc tiers : ∀ out g,
  sort_tiers draw tiers out g = with_prefix out (sort_tiers draw tiers [] g).
Proof.
  induction tiers as [|[k es] tiers IH]; intros out g; simpl.
  - unfold ret. by rewrite app_nil_r.
  - unfold bind. rewrite sort_tier_acc.
    destruct (sort_tier draw es [] g) as [[x| |] g1]; simpl; try done.
    by rewrite IH, (IH ([] ++ x)), with_prefix_app.
Qed.

Lemma sort_tiers_app tiers1 tiers2 : ∀ out g,
  sort_tiers draw (tiers1 ++ tiers2) out g
  = bind (sort_tiers draw tiers1 out) (sort_tiers draw tiers2) g.
Proof.
  induction tiers1 as [|[k es] tiers1 IH]; intros out g; simpl; [done|].
  unfold bind in *. destruct (sort_tier draw es out g) as [[x| |] g1]; auto.
Qed.

(** The loop over the tiers ends, and emits the tiers one after the other. *)
Lemma sort_tiers_total tiers : ∀ g,
  ∃ x g', sort_tiers draw tiers [] g = (Return x, g')
          ∧ x ≡ₚ mjoin (tiers.*2).
Proof.
  induction tiers as [|[k es] tiers IH]; intros g; simpl.
  - by exists [], g.
  - unfold bind.
    destruct (sort_tier_total es g) as (x1 & g1 & -> & Hx1).
    rewrite sort_tiers_acc.
    destruct (IH g1) as (x2 & g2 & -> & Hx2).
    exists (x1 ++ x2), g2. split; [done|]. by rewrite Hx1, Hx2.
Qed.

End OrderingFacts.

(** ** Dividing the answers by priority *)
Section GroupingFacts.

Lemma dict_append_keys p e (d : list (N * list SRV)) :
  (dict_append p e d).*1 = if decide (p ∈ d.*1) then d.*1 else d.*1 ++ [p].
Proof.
  induction d as [|[k es] d IH].
  - case_decide as Hin; [by apply elem_of_nil in Hin|done].
  - cbn [dict_append]. destruct (N.eqb_spec k p) as [->|Hkp]; cbn [fmap list_fmap fst].
    + destruct (decide (p ∈ p :: d.*1)) as [Hin|Hin]; [done|].
      exfalso. apply Hin, elem_of_cons; auto.
    + rewrite IH.
      destruct (decide (p ∈ d.*1)) as [Hin|Hin],
        (decide (p ∈ k :: d.*1)) as [Hin'|Hin'];
        try done; exfalso.
      * apply Hin', elem_of_cons; auto.
      * apply elem_of_cons in Hin' as [?|?]; congruence.
Qed.

Lemma dict_append_join p e (d : list (N * list SRV)) :
  mjoin ((dict_append p e d).*2) ≡ₚ e :: mjoin (d.*2).
Proof.
  induction d as [|[k es] d IH]; simpl; [done|].
  destruct (k =? p)%N; simpl.
  - rewrite <-app_assoc. simpl. symmetry. apply Permutation_middle.
  - rewrite IH. symmetry. apply Permutation_middle.
Qed.

Lemma dict_append_elem p e (d : list (N * list SRV)) k es :
  NoDup (d.*1) → (k, es) ∈ dict_append p e d →
  if decide (k = p)
  then (es = [e] ∧ p ∉ d.*1) ∨ (∃ es0, (p, es0) ∈ d ∧ es = es0 ++ [e])
  else (k, es) ∈ d.
Proof.
  induction d as [|[k0 es0] d IH]; cbn [dict_append].
  - intros _ Hin%list_elem_of_singleton. simplify_eq.
    rewrite decide_True by done. left. split; [done|]. apply not_elem_of_nil.
  - rewrite fmap_cons. intros [Hk0 Hnd]%NoDup_cons Hin. simpl in Hk0.
    destruct (N.eqb_spec k0 p) as [->|Hkp].
    + apply elem_of_cons in Hin as [Heq|Hin].
      * simplify_eq. rewrite decide_True by done. right.
        exists es0. split; [apply elem_of_cons; auto|done].
      * destruct (decide (k = p)) as [->|Hne].
        -- exfalso. apply Hk0. apply list_elem_of_fmap. by exists (p, es).
        -- apply elem_of_cons; auto.
    + apply elem_of_cons in Hin as [Heq|Hin].
      * simplify_eq. rewrite decide_False by done. apply elem_of_cons; auto.
      * specialize (IH Hnd Hin). destruct (decide (k = p)) as [->|Hne].
        -- destruct IH as [[-> Hnin]|(es1 & Hin1 & ->)].
           ++ left. split; [done|].
              intros [?|?]%elem_of_cons; simpl in *; congruence.
           ++ right. exists es1. split; [apply elem_of_cons; auto|done].
        -- apply elem_of_cons; auto.
Qed.

Lemma dict_append_filter (P : N → Prop) `{!∀ k, Decision (P k)} p e
    (d : list (N * list SRV)) :
  filter (λ t, P t.1) (dict_append p e d)
  = if decide (P p) then dict_append p e (filter (λ t, P t.1) d)
    else filter (λ t, P t.1) d.
Proof.
  induction d as [|[k es] d IH]; cbn [dict_append].
  - rewrite filter_cons, filter_nil. simpl. by destruct (decide (P p)).
  - destruct (N.eqb_spec k p) as [->|Hkp].
    + rewrite !filter_cons. simpl. destruct (decide (P p)); [|done].
      simpl. by rewrite N.eqb_refl.
    + rewrite !filter_cons, IH. simpl.
      destruct (decide (P p)), (decide (P k)); try done.
      simpl. by destruct (N.eqb_spec k p).
Qed.

Lemma divide_by_priority_snoc ans e :
  divide_by_priority (ans ++ [e])
  = dict_append (srv_priority e) e (divide_by_priority ans).
Proof. unfold divide_by_priority. by rewrite foldl_app. Qed.

(** Every answer is in exactly one tier. *)
Lemma divide_by_priority_join ans :
  mjoin ((divide_by_priority ans).*2) ≡ₚ ans.
Proof.
  induction ans as [|e ans IH] using rev_ind; [done|].
  rewrite divide_by_priority_snoc, dict_append_join, IH.
  apply Permutation_cons_append.
Qed.

(** Dividing commutes with a filter on the priority. *)
Lemma divide_by_priority_filter (P : N → Prop) `{!∀ k, Decision (P k)} ans :
  divide_by_priority (filter (λ e, P (srv_priority e)) ans)
  = filter (λ t, P t.1) (divide_by_priority ans).
Proof.
  induction ans as [|e ans IH] using rev_ind; [done|].
  rewrite filter_app, filter_cons, filter_nil, divide_by_priority_snoc,
    dict_append_filter, <-IH.
  destruct (decide (P (srv_priority e))).
  - by rewrite divide_by_priority_snoc.
  - by rewrite app_nil_r.
Qed.

Lemma divide_by_priority_tiers ans : tiers_of ans (divide_by_priority ans).
Proof.
  induction ans as [|e ans [Hnd Hel Hco]] using rev_ind.
  - split; [constructor|by intros ?? ?%elem_of_nil|by intros ? ?%elem_of_nil].
  - rewrite divide_by_priority_snoc. set (p := srv_priority e).
    split.
    + rewrite dict_append_keys. case_decide; [done|].
      apply NoDup_app. split_and!; [done| |apply NoDup_singleton].
      intros k Hk ->%list_elem_of_singleton. done.
    + intros k es Hin. apply dict_append_elem in Hin; [|done].
      rewrite filter_app, filter_cons, filter_nil.
      destruct (decide (k = p)) as [->|Hne].
      * rewrite decide_True by done.
        destruct Hin as [[-> Hnin]|(es0 & [-> _]%Hel & ->)].
        -- split; [|done].
           rewrite filter_none; [done|].
           apply Forall_forall. intros e0 He0 Hp. apply Hnin.
           rewrite <-Hp. by apply Hco.
        -- split; [done|]. by intros []%app_eq_nil.
      * rewrite decide_False by (unfold p in Hne; congruence).
        rewrite app_nil_r. by apply Hel.
    + intros e0 He0. rewrite dict_append_keys.
      apply elem_of_app in He0 as [He0| ->%list_elem_of_singleton].
      * apply Hco in He0. case_decide; [done|]. apply elem_of_app; auto.
      * case_decide; [done|]. apply elem_of_app. right. by apply list_elem_of_singleton.
Qed.

End GroupingFacts.

(** ** The tiers in ascending priority *)
Section SortedTiersFacts.
Context {Rng : Type} (draw : Z → Z → Rng → Z * Rng).

Lemma StronglySorted_lookup_lt {A} (R : relation A) (l : list A) :
  StronglySorted R l →
  ∀ i j a b, l !! i = Some a → l !! j = Some b → (i < j)%nat → R a b.
Proof.
  induction 1 as [|x l Hl IH Hx]; intros i j a b Hi Hj Hij.
  - by rewrite lookup_nil in Hi.
  - destruct j as [|j]; [lia|]. destruct i as [|i]; simpl in *.
    + simplify_eq. rewrite Forall_forall in Hx.
      apply Hx. by eapply list_elem_of_lookup_2.
    + apply (IH i j); [done..|lia].
Qed.

Lemma sorted_tiers_of ans :
  tiers_of ans (sort_by fst (divide_by_priority ans)).
Proof.
  destruct (divide_by_priority_tiers ans) as [Hnd Hel Hco].
  pose proof (sort_by_Permutation fst (divide_by_priority ans)) as Hp.
  split.
  - by rewrite Hp.
  - intros k es Hin. apply Hel. by rewrite <-Hp.
  - intros e He. rewrite Hp. by apply Hco.
Qed.

(** Tiers whose entries carry the priority the tier is filed under. *)
Lemma tiers_of_keyed ans d k es e :
  tiers_of ans d → (k, es) ∈ d → e ∈ es → srv_priority e = k.
Proof.
  intros [_ Hel _] [-> _]%Hel Hin.
  by apply list_elem_of_filter in Hin as [? _].
Qed.

(** The loop over tiers in ascending key order emits the answers in
    ascending priority. *)
Lemma sort_tiers_sorted tiers :
  StronglySorted (key_le fst) tiers →
  (∀ k es e, (k, es) ∈ tiers → e ∈ es → srv_priority e = k) →
  ∀ g x g', sort_tiers draw tiers [] g = (Return x, g') →
  StronglySorted (key_le srv_priority) x.
Proof.
  induction 1 as [|[k es] tiers Hs IH Hk]; intros Hkeyed g x g'; simpl.
  - intros [= <- _]. constructor.
  - unfold bind.
    destruct (sort_tier_total draw es g) as (x1 & g1 & -> & Hx1).
    rewrite sort_tiers_acc.
    destruct (sort_tiers_total draw tiers g1) as (x2 & g2 & Hrun & Hx2).
    rewrite Hrun. intros [= <- _]. simpl.
    assert (∀ e, e ∈ x1 → srv_priority e = k) as Hk1.
    { intros e He. rewrite Hx1 in He.
      apply (Hkeyed k es); [apply elem_of_cons; auto|done]. }
    apply StronglySorted_app_2.
    + intros e1 e2 He1 He2. rewrite Hx2 in He2.
      apply list_elem_of_join in He2 as (es2 & He2 & Hes2).
      apply list_elem_of_fmap in Hes2 as ([k2 es2'] & -> & Hin2). simpl in He2.
      unfold key_le. rewrite (Hk1 e1 He1).
      rewrite (Hkeyed k2 es2' e2); [|apply elem_of_cons; auto|done].
      rewrite Forall_forall in Hk. apply (Hk _ Hin2).
    + clear -Hk1. induction x1 as [|e x1 IHx]; constructor.
      * apply IHx. intros e' He'. apply Hk1, elem_of_cons; auto.
      * apply Forall_forall. intros e' He'. unfold key_le.
        rewrite (Hk1 e), (Hk1 e'); [done|apply elem_of_cons; auto..].
    + apply (IH (λ k' es' e' Hin, Hkeyed k' es' e' (proj2 (elem_of_cons _ _ _) (or_intror Hin))) g1 x2 g2 Hrun).
Qed.

Lemma sort_rfc2782_total ans g :
  ∃ out g', sort_rfc2782 draw ans g = (Return out, g') ∧ out ≡ₚ ans.
Proof.
  unfold sort_rfc2782.
  destruct (sort_tiers_total draw (sort_by fst (divide_by_priority ans)) g)
    as (x & g' & -> & Hx).
  exists x, g'. split; [done|].
  by rewrite Hx, sort_by_Permutation, divide_by_priority_join.
Qed.

Lemma sort_rfc2782_sorted ans g out g' :
  sort_rfc2782 draw ans g = (Return out, g') →
  StronglySorted (key_le srv_priority) out.
Proof.
  apply sort_tiers_sorted; [apply sort_by_sorted|].
  intros k es e. apply (tiers_of_keyed ans), sorted_tiers_of.
Qed.

End SortedTiersFacts.

(** ** The loop of [sort_rfc2782] against the documented walk *)
Section DocumentedWalkFacts.
Context {Rng : Type} (draw : Z → Z → Rng → Z * Rng).
Hypothesis draw_in_range : ∀ b g, 0 ≤ b → 0 ≤ (draw 0 b g).1 ≤ b.

Lemma cumulative_sum_cons ent l j :
  cumulative_sum (ent :: l) (S j) = Z.of_N (srv_weight ent) + cumulative_sum l j.
Proof. done. Qed.

Lemma cumulative_sum_0 ent l :
  cumulative_sum (ent :: l) 0 = Z.of_N (srv_weight ent).
Proof. unfold cumulative_sum. simpl. lia. Qed.

(** Where the inner loop stops: no earlier entry reaches [r], and the
    entry it stops on does, unless it is the last one. *)
Lemma walk_char rest : ∀ r csum i ent,
  ∃ k e, walk r csum i ent rest = ((i + k)%nat, e)
    ∧ (ent :: rest) !! k = Some e
    ∧ (∀ j, (j < k)%nat → ¬ r ≤ csum + cumulative_sum (ent :: rest) j)
    ∧ (r ≤ csum + cumulative_sum (ent :: rest) k ∨ k = length rest).
Proof.
  induction rest as [|ent' rest IH]; intros r csum i ent; cbn [walk].
  - exists 0%nat, ent. rewrite Nat.add_0_r.
    split_and!; [by destruct (r <=? _)|done|lia|by right].
  - destruct (Z.leb_spec r (csum + Z.of_N (srv_weight ent))) as [Hr|Hr].
    + exists 0%nat, ent. rewrite Nat.add_0_r, cumulative_sum_0.
      split_and!; [done|done|lia|by left].
    + destruct (IH r (csum + Z.of_N (srv_weight ent)) (S i) ent')
        as (k & e & Hw & Hk & Hbefore & Hat).
      exists (S k), e. rewrite Hw. split_and!.
      * f_equal. lia.
      * done.
      * intros [|j] Hj.
        -- rewrite cumulative_sum_0. lia.
        -- rewrite cumulative_sum_cons. specialize (Hbefore j). lia.
      * rewrite cumulative_sum_cons. simpl. destruct Hat; [left|right]; lia.
Qed.

(** With the draw within the total weight, the inner loop stops on the
    first entry whose cumulative sum reaches or exceeds the draw. *)
Lemma walk_first_reaching ent0 rest r :
  r ≤ sum_weights (ent0 :: rest) →
  ∃ k e, walk r 0 0 ent0 rest = (k, e)
    ∧ (ent0 :: rest) !! k = Some e
    ∧ first_reaching r (ent0 :: rest) = Some k.
Proof.
  intros Hr.
  destruct (walk_char rest r 0 0%nat ent0) as (k & e & Hw & Hk & Hbefore & Hat).
  exists k, e. split_and!; [done..|].
  unfold first_reaching.
  assert (list_find (λ k0, r ≤ cumulative_sum (ent0 :: rest) k0)
            (seq 0 (length (ent0 :: rest))) = Some (k, k)) as ->; [|done].
  apply list_find_Some. split_and!.
  - apply lookup_seq. split; [done|]. by eapply lookup_lt_Some.
  - destruct Hat as [Hat| ->]; [lia|].
    unfold cumulative_sum. rewrite take_ge by (simpl; lia). done.
  - intros j y [-> _]%lookup_seq Hj. specialize (Hbefore j Hj). simpl. lia.
Qed.

Lemma weighted_loop_documented fuel : ∀ entries g,
  (length entries ≤ fuel)%nat →
  ∃ x g', weighted_loop draw fuel entries (sum_weights entries) [] g
          = (Return x, g')
        ∧ documented_walk draw fuel entries (sum_weights entries) g
          = Some (x, g').
Proof.
  induction fuel as [|fuel IH]; intros [|ent0 rest] g Hlen;
    try (by exists [], g); [simpl in Hlen; lia|].
  cbn [weighted_loop documented_walk]. unfold bind at 1, randint.
  pose proof (sum_weights_nonneg (ent0 :: rest)) as Hnn.
  pose proof (draw_in_range (sum_weights (ent0 :: rest)) g Hnn) as Hr.
  destruct (Z.leb_spec 0 (sum_weights (ent0 :: rest))); [|lia].
  destruct (draw 0 (sum_weights (ent0 :: rest)) g) as [r g1].
  destruct (walk_first_reaching ent0 rest r) as (k & e & -> & Hk & ->);
    [cbn [fst] in Hr; lia|].
  cbn [mbind option_bind]. rewrite Hk. cbn [mbind option_bind].
  rewrite weighted_loop_acc, <-delete_take_drop, <-(sum_weights_delete _ _ _ Hk).
  destruct (IH (delete k (ent0 :: rest)) g1) as (x & g' & -> & ->).
  { rewrite length_delete by eauto. simpl in *. lia. }
  by exists (e :: x), g'.
Qed.

Lemma sort_tier_documented tier g :
  (2 ≤ length tier)%nat →
  ∃ x g', sort_tier draw tier [] g = (Return x, g')
        ∧ documented_order draw tier g = Some (x, g').
Proof.
  intros Hlen. unfold sort_tier, documented_order.
  destruct tier as [|e [|e' rest]]; [simpl in Hlen; lia..|].
  set (tier := e :: e' :: rest) in *.
  rewrite <-(sort_by_length srv_weight tier).
  rewrite <-(sum_weights_Permutation _ _ (sort_by_Permutation srv_weight tier)).
  by apply weighted_loop_documented.
Qed.

End DocumentedWalkFacts.

(** ** Claims on the ordering *)
Section OrderingClaims.
Context {Rng : Type} (draw : Z → Z → Rng → Z * Rng).

(** A list of tiers in ascending key order, cut at one of its tiers. *)
Lemma sorted_tiers_split (tiers : list (N * list SRV)) p es :
  StronglySorted (key_le fst) tiers → NoDup (tiers.*1) → (p, es) ∈ tiers →
  tiers = filter (λ t, (t.1 < p)%N) tiers
          ++ (p, es) :: filter (λ t, (p < t.1)%N) tiers.
Proof.
  induction 1 as [|[k0 es0] tiers Hs IH Hk]; [by intros _ ?%elem_of_nil|].
  rewrite fmap_cons. intros [Hk0 Hnd]%NoDup_cons Hin. simpl in Hk0.
  assert (∀ t, t ∈ tiers → (k0 < t.1)%N) as Hlt.
  { intros [k1 es1] Hin1. rewrite Forall_forall in Hk.
    specialize (Hk _ Hin1). unfold key_le in Hk. simpl in *.
    assert (k0 ≠ k1); [|lia].
    intros ->. apply Hk0, list_elem_of_fmap. by exists (k1, es1). }
  rewrite !(filter_cons _ (k0, es0)). simpl.
  apply elem_of_cons in Hin as [Heq|Hin].
  - simplify_eq. rewrite !decide_False by lia.
    rewrite filter_none, filter_all; [done|..];
      apply Forall_forall; intros t Ht; specialize (Hlt t Ht); lia.
  - pose proof (Hlt _ Hin) as Hp. simpl in Hp.
    rewrite decide_True, decide_False by lia. simpl. f_equal. by apply IH.
Qed.

(** What the loop over the tiers emits keeps the priorities of the tiers. *)
Lemma sort_tiers_priorities tiers (P : N → Prop) g x g' :
  (∀ k es e, (k, es) ∈ tiers → e ∈ es → P (srv_priority e)) →
  sort_tiers draw tiers [] g = (Return x, g') →
  Forall (λ e, P (srv_priority e)) x.
Proof.
  intros HP Hrun.
  destruct (sort_tiers_total draw tiers g) as (x' & g'' & Hrun' & Hx).
  rewrite Hrun in Hrun'. simplify_eq.
  apply Forall_forall. intros e He. rewrite Hx in He.
  apply list_elem_of_join in He as (es & He & Hes).
  apply list_elem_of_fmap in Hes as ([k es'] & -> & Hin). by eapply HP.
Qed.

(** C1. With every draw within [0, totalWeight], the entries [sort_rfc2782]
    emits for a priority tier of two or more entries are exactly those of
    the documented walk: the tier sorted by ascending weight, then at each
    step the first remaining entry whose cumulative weight reaches or
    exceeds the draw, removed, its weight taken off the total, until the
    tier is exhausted.  The walk starts from the random source as the
    tiers of lower priority left it, so the emitted order is a function of
    the answers and of the draws. *)
Theorem sort_rfc2782_documented_walk ans p g :
  (∀ b g0, 0 ≤ b → 0 ≤ (draw 0 b g0).1 ≤ b) →
  let tier := filter (λ e, srv_priority e = p) ans in
  let lower := filter (λ e, (srv_priority e < p)%N) ans in
  (2 ≤ length tier)%nat →
  sort_by srv_weight tier ≡ₚ tier
  ∧ StronglySorted (key_le srv_weight) (sort_by srv_weight tier)
  ∧ ∃ out g' emitted g_p,
      sort_rfc2782 draw ans g = (Return out, g')
      ∧ documented_order draw tier (sort_rfc2782 draw lower g).2
        = Some (emitted, g_p)
      ∧ filter (λ e, srv_priority e = p) out = emitted.
Proof.
  intros Hdraw tier lower Hlen.
  split; [apply sort_by_Permutation|]. split; [apply sort_by_sorted|].
  unfold sort_rfc2782.
  set (tiers := sort_by fst (divide_by_priority ans)).
  pose proof (sorted_tiers_of ans) as Htiers. fold tiers in Htiers.
  assert (StronglySorted (key_le fst) tiers) as Hsorted by apply sort_by_sorted.
  (* the tier of [p] is one of the tiers *)
  assert ((p, tier) ∈ tiers) as Hin.
  { destruct tier as [|e0 tier'] eqn:Htier; [simpl in Hlen; lia|].
    assert (e0 ∈ filter (λ e, srv_priority e = p) ans) as He0.
    { fold tier. rewrite Htier. apply elem_of_cons; auto. }
    apply list_elem_of_filter in He0 as [Hp He0].
    apply (tiers_complete _ _ Htiers) in He0. rewrite Hp in He0.
    apply list_elem_of_fmap in He0 as ([k es] & Hk & Hkes). simpl in Hk. subst k.
    destruct (tiers_elem _ _ Htiers _ _ Hkes) as [Hes _].
    fold tier in Hes. rewrite Htier in Hes. by subst es. }
  pose proof (sorted_tiers_split tiers p tier Hsorted
                (tiers_NoDup _ _ Htiers) Hin) as Hsplit.
  set (low := filter (λ t, (t.1 < p)%N) tiers) in *.
  set (high := filter (λ t, (p < t.1)%N) tiers) in *.
  (* the tiers below [p] are the tiers of the answers below [p] *)
  assert (sort_by fst (divide_by_priority lower) = low) as ->.
  { unfold lower, low, tiers. rewrite sort_by_filter. f_equal.
    exact (@divide_by_priority_filter (λ k, (k < p)%N) (λ k, decide (k < p)%N) ans). }
  rewrite Hsplit, sort_tiers_app. unfold bind at 1.
  destruct (sort_tiers_total draw low g) as (x1 & g1 & Hrun1 & _).
  rewrite Hrun1. cbn [sort_tiers snd]. unfold bind at 1.
  rewrite sort_tier_acc.
  destruct (sort_tier_documented draw Hdraw tier g1 Hlen) as (x2 & g2 & Hrun2 & Hdoc).
  rewrite Hrun2, Hdoc. cbn [with_prefix].
  rewrite sort_tiers_acc.
  destruct (sort_tiers_total draw high g2) as (x3 & g3 & Hrun3 & _).
  rewrite Hrun3. cbn [with_prefix].
  exists ((x1 ++ x2) ++ x3), g3, x2, g2. split_and!; [done..|].
  rewrite !filter_app.
  assert (∀ k es e, (k, es) ∈ tiers → e ∈ es → srv_priority e = k) as Hkeyed.
  { intros k es e. by apply (tiers_of_keyed ans). }
  assert (filter (λ e, srv_priority e = p) x1 = []) as ->.
  { apply filter_none.
    eapply Forall_impl;
      [apply (sort_tiers_priorities low (λ k, (k < p)%N) g x1 g1); [|done]|].
    - intros k es e [Hk Hkes]%list_elem_of_filter He.
      rewrite (Hkeyed k es e); done.
    - simpl. intros; lia. }
  assert (filter (λ e, srv_priority e = p) x3 = []) as ->.
  { apply filter_none.
    eapply Forall_impl;
      [apply (sort_tiers_priorities high (λ k, (p < k)%N) g2 x3 g3); [|done]|].
    - intros k es e [Hk Hkes]%list_elem_of_filter He.
      rewrite (Hkeyed k es e); done.
    - simpl. intros; lia. }
  rewrite app_nil_r. simpl. apply filter_all.
  destruct (sort_tier_total draw tier g1) as (x2' & g2' & Hrun2' & Hx2).
  rewrite Hrun2 in Hrun2'. simplify_eq.
  apply Forall_forall. intros e He. rewrite Hx2 in He.
  by apply list_elem_of_filter in He as [? _].
Qed.

End OrderingClaims.

(** ** Claims on the selector *)
Section SelectorClaims.
Context {Rng : Type} (draw : Z → Z → Rng → Z * Rng).

(** C10. Whatever the draws, [sort_rfc2782] returns (the [while] loop ends,
    [randint] is never given an empty range) and what it returns is a
    permutation of the answers: each one is there exactly once. *)
Theorem sort_rfc2782_Permutation ans g :
  ∃ out g', sort_rfc2782 draw ans g = (Return out, g')
    ∧ out ≡ₚ ans
    ∧ ∀ e, count_occ SRV_eq_dec out e = count_occ SRV_eq_dec ans e.
Proof.
  destruct (sort_rfc2782_total draw ans g) as (out & g' & Hrun & Hperm).
  exists out, g'. split_and!; [done..|].
  intros e. by apply Permutation_count_occ.
Qed.

(** Outside the zero-answer and root-domain cases the selector emits the
    records of the answers in the order [sort_rfc2782] gives. *)
Lemma _get_solved_entries_sorted hp entries g :
  entries ≠ [] →
  (∀ e, entries = [e] → srv_target e ≠ ".") →
  ∃ sorted g', sort_rfc2782 draw entries g = (Return sorted, g')
    ∧ _get_solved_entries draw hp entries g
      = (Return (solved_entry <$> sorted), g')
    ∧ sorted ≡ₚ entries.
Proof.
  intros Hne Hroot. destruct entries as [|entry0 rest]; [done|].
  destruct (sort_rfc2782_total draw (entry0 :: rest) g)
    as (sorted & g' & Hrun & Hperm).
  exists sorted, g'. split_and!; [done| |done].
  cbn [_get_solved_entries].
  assert (Nat.eqb (length (entry0 :: rest)) 1
          && String.eqb (srv_target entry0) "." = false) as ->.
  { destruct rest as [|e1 rest]; [|done]. simpl.
    apply String.eqb_neq. by apply Hroot. }
  unfold bind. by rewrite Hrun.
Qed.

(** C2. When the selector sorts the answers (there is one at least, and
    they are not the single root-domain answer), the records it emits are
    those of the answers, and a record from an answer of lower priority
    value always comes before a record from an answer of higher priority
    value, whatever the draws. *)
Theorem _get_solved_entries_priority_order hp entries g :
  entries ≠ [] →
  (∀ e, entries = [e] → srv_target e ≠ ".") →
  ∃ sorted g',
    _get_solved_entries draw hp entries g
    = (Return (solved_entry <$> sorted), g')
    ∧ sorted ≡ₚ entries
    ∧ ∀ i j a b, sorted !! i = Some a → sorted !! j = Some b →
        (srv_priority a < srv_priority b)%N → (i < j)%nat.
Proof.
  intros Hne Hroot.
  destruct (_get_solved_entries_sorted hp entries g Hne Hroot)
    as (sorted & g' & Hrun & Hsel & Hperm).
  exists sorted, g'. split_and!; [done..|].
  intros i j a b Hi Hj Hab.
  pose proof (sort_rfc2782_sorted draw _ _ _ _ Hrun) as Hs.
  destruct (Nat.lt_trichotomy i j) as [Hij|[->|Hji]]; [done|..].
  - rewrite Hi in Hj. simplify_eq. lia.
  - pose proof (StronglySorted_lookup_lt _ _ Hs j i b a Hj Hi Hji) as Hba.
    unfold key_le in Hba. lia.
Qed.

(** C3. A single answer whose target is the root domain makes the selector
    emit nothing, whatever its priority, weight and port and whatever the
    record looked up; no random number is drawn.  So a lookup that answers
    just that gives no record for its host. *)
Theorem _get_solved_entries_root_domain hp priority weight port_ g queries :
  _get_solved_entries draw hp [mkSRV priority weight port_ "."] g
  = (Return [], g)
  ∧ _resolve_srv draw (λ _, Some [mkSRV priority weight port_ "."]) hp
      (mkWorld g queries)
    = (Return [], mkWorld g (queries ++ [host hp]))
  ∧ run_until_complete (λ _, Some [mkSRV priority weight port_ "."])
      (_resolve_srv_async draw hp) (mkWorld g queries)
    = (Return [], mkWorld g (queries ++ [host hp])).
Proof. done. Qed.

End SelectorClaims.

(** ** The attempt classifier *)
Section ClassifierFacts.

Lemma split_length_pos sep s : (0 < length (PyStr.split sep s))%nat.
Proof.
  induction s as [|c s IH]; simpl; [lia|].
  destruct (Ascii.eqb c sep); simpl; [lia|].
  destruct (PyStr.split sep s); simpl in *; lia.
Qed.

(** *** What [re_srv_rr] matches *)

Lemma string_app_cons a s t : String a s +:+ t = String a (s +:+ t).
Proof. done. Qed.

Lemma string_app_empty t : "" +:+ t = t.
Proof. done. Qed.

Lemma span_not_spec c s p r :
  PyStr.span_not c s = (p, r) ↔
  s = p +:+ r ∧ PyStr.contains c p = false ∧ (r = "" ∨ ∃ r', r = String c r').
Proof.
  revert p r. induction s as [|a s IH]; intros p r; simpl.
  - split.
    + intros [= <- <-]. auto.
    + intros (Hs & _ & _). destruct p as [|b p].
      * rewrite string_app_empty in Hs. by subst.
      * by rewrite string_app_cons in Hs.
  - destruct (Ascii.eqb_spec a c) as [->|Hac].
    + split.
      * intros [= <- <-]. split_and!; [done..|]. right. by eexists.
      * intros (Hs & Hp & Hr). destruct p as [|b p].
        -- rewrite string_app_empty in Hs. by subst.
        -- rewrite string_app_cons in Hs. simplify_eq. simpl in Hp.
           by rewrite Ascii.eqb_refl in Hp.
    + destruct (PyStr.span_not c s) as [p0 r0] eqn:Hsp.
      split.
      * intros [= <- <-].
        destruct (proj1 (IH p0 r0) eq_refl) as (-> & Hp0 & Hr0).
        split_and!; [done| |done]. simpl.
        by destruct (Ascii.eqb_spec a c).
      * intros (Hs & Hp & Hr). destruct p as [|b p].
        -- rewrite string_app_empty in Hs. subst r.
           destruct Hr as [|[r' [= -> _]]]; done.
        -- rewrite string_app_cons in Hs. simplify_eq. simpl in Hp.
           apply orb_false_iff in Hp as [_ Hp].
           assert ((p0, r0) = (p, r)) as Hpr by (by apply IH).
           by simplify_eq.
Qed.

Lemma match_label_spec s rest :
  match_label s = Some rest ↔
  ∃ label, s = "_" +:+ label +:+ "." +:+ rest
           ∧ label ≠ "" ∧ PyStr.contains "." label = false.
Proof.
  unfold match_label. split.
  - destruct s as [|a s]; [done|].
    destruct (Ascii.eqb_spec a "_") as [->|Hne].
    + destruct (PyStr.span_not "." s) as [lab r] eqn:Hsp.
      apply span_not_spec in Hsp as (-> & Hlab & Hr).
      destruct lab as [|b lab]; [done|]. destruct r as [|d r]; [done|].
      intros [= <-]. destruct Hr as [|[r' [= -> ->]]]; [done|].
      exists (String b lab). done.
    + intros H. exfalso. apply Hne. clear Hne.
      by destruct a as [[] [] [] [] [] [] [] []].
  - intros (lab & -> & Hne & Hlab).
    rewrite string_app_cons, string_app_empty.
    assert (PyStr.span_not "." (lab +:+ "." +:+ rest) = (lab, "." +:+ rest)) as ->.
    { apply span_not_spec. split_and!; [done..|]. right. by eexists. }
    by destruct lab.
Qed.

(** X1. [re_srv_rr] matches exactly the hosts made of an underscore and a
    label without dot, a dot, an underscore and a second label without dot,
    a dot, and something not starting with a newline; the group [target]
    is what follows the second dot, up to the first newline. *)
Lemma re_srv_rr_match_spec h t :
  re_srv_rr_match h = Some t ↔
  ∃ service proto rest,
    h = "_" +:+ service +:+ "." +:+ "_" +:+ proto +:+ "." +:+ rest
    ∧ service ≠ "" ∧ PyStr.contains "." service = false
    ∧ proto ≠ "" ∧ PyStr.contains "." proto = false
    ∧ t = (PyStr.span_not "010" rest).1 ∧ t ≠ "".
Proof.
  unfold re_srv_rr_match. split.
  - destruct (match_label h) as [r1|] eqn:H1; [|done].
    destruct (match_label r1) as [r2|] eqn:H2; [|done].
    apply match_label_spec in H1 as (service & -> & ? & ?).
    apply match_label_spec in H2 as (proto & -> & ? & ?).
    destruct (PyStr.span_not "010" r2).1 as [|a t'] eqn:Ht; [done|].
    intros [= <-]. exists service, proto, r2. rewrite Ht. done.
  - intros (service & proto & rest & -> & ? & ? & ? & ? & -> & Hne).
    assert (match_label ("_" +:+ service +:+ "." +:+ "_" +:+ proto +:+ "." +:+ rest)
            = Some ("_" +:+ proto +:+ "." +:+ rest)) as ->.
    { apply match_label_spec. by exists service. }
    assert (match_label ("_" +:+ proto +:+ "." +:+ rest) = Some rest) as ->.
    { apply match_label_spec. by exists proto. }
    by destruct (PyStr.span_not "010" rest).1.
Qed.

Example re_srv_rr_match_srv_name :
  re_srv_rr_match "_postgresql._tcp.db.example.com" = Some "db.example.com".
Proof. reflexivity. Qed.

Example re_srv_rr_match_plain_name : re_srv_rr_match "db.example.com" = None.
Proof. reflexivity. Qed.

Example re_srv_rr_match_no_target : re_srv_rr_match "_postgresql._tcp." = None.
Proof. reflexivity. Qed.

Example split_hosts : PyStr.split "," "a,b,,c" = ["a"; "b"; ""; "c"].
Proof. reflexivity. Qed.

Example split_empty : PyStr.split "," "" = [""].
Proof. reflexivity. Qed.

Example lower_port : PyStr.lower "SrV" = "srv".
Proof. reflexivity. Qed.

Example rstrip_target : PyStr.rstrip "." "pg1.example.com." = "pg1.example.com".
Proof. reflexivity. Qed.

(** The group [target] of a match is never empty. *)
Lemma re_srv_rr_match_truthy h t :
  re_srv_rr_match h = Some t → PyStr.truthy t = true.
Proof.
  unfold re_srv_rr_match.
  destruct (match_label h) as [r1|]; [|done].
  destruct (match_label r1) as [r2|]; [|done].
  destruct (PyStr.span_not "010" r2).1; [done|]. by intros [= <-].
Qed.

Lemma classify_classified l : ∀ out found,
  Forall classified out → Forall classified (foldl classify (out, found) l).1.
Proof.
  induction l as [|[h p] l IH]; intros out found Hout; [done|].
  cbn [foldl classify].
  destruct (bool_decide (is_Some (re_srv_rr_match h))
            || String.eqb (PyStr.lower p) "srv") eqn:Hsrv;
    apply IH, Forall_app; (split; [done|]); by repeat constructor.
Qed.

Lemma _get_attempts_classified params env attempts :
  _get_attempts params env = Return attempts → Forall classified attempts.
Proof.
  unfold _get_attempts. destruct (PyStr.truthy _); [by intros [= <-]|].
  destruct (negb _); [done|].
  match goal with |- context [foldl classify ?st ?l] =>
    pose proof (classify_classified l [] false (Forall_nil_2 _)) as H;
    destruct (foldl classify st l) as [out found] end.
  intros [= <-]. by destruct found.
Qed.

(** Pairs that are neither SRV names nor SRV ports leave the flag down. *)
Lemma classify_no_srv l : ∀ out,
  Forall (λ hp, re_srv_rr_match hp.1 = None ∧ PyStr.lower hp.2 ≠ "srv") l →
  (foldl classify (out, false) l).2 = false.
Proof.
  induction l as [|[h p] l IH]; intros out Hl; [done|].
  apply Forall_cons in Hl as [[Hh Hp] Hl]. simpl in Hh, Hp.
  cbn [foldl classify]. rewrite Hh.
  apply String.eqb_neq in Hp. rewrite Hp. simpl. by apply IH.
Qed.

Lemma Forall_zip {A B} (P : A → Prop) (Q : B → Prop) (l : list A) (k : list B) :
  Forall P l → Forall Q k → Forall (λ ab, P ab.1 ∧ Q ab.2) (zip l k).
Proof.
  intros Hl. revert k. induction Hl as [|a l Ha Hl IH]; intros k Hk; [constructor|].
  destruct Hk as [|b k Hb Hk]; constructor; [done|]. by apply IH.
Qed.

Lemma Forall_repeat_list {A} (P : A → Prop) (l : list A) n :
  Forall P l → Forall P (mjoin (replicate n l)).
Proof.
  intros Hl. induction n as [|n IH]; simpl; [constructor|].
  by apply Forall_app.
Qed.

Lemma length_repeat_single {A} (l : list A) n :
  length l = 1%nat → length (mjoin (replicate n l)) = n.
Proof.
  intros Hl. induction n as [|n IH]; simpl; [done|].
  rewrite length_app. lia.
Qed.

End ClassifierFacts.

(** ** The two lookup paths *)
Section ResolveFacts.
Context {Rng : Type} (draw : Z → Z → Rng → Z * Rng).
Variable lookup : string → option (list SRV).

Lemma _get_solved_entries_total hp entries g :
  ∃ found g', _get_solved_entries draw hp entries g = (Return found, g').
Proof.
  destruct entries as [|entry0 rest]; cbn [_get_solved_entries].
  - destruct (target hp) as [t|]; [|by eexists _, _].
    destruct (_ && _); by eexists _, _.
  - destruct (_ && _); [by eexists _, _|].
    destruct (sort_rfc2782_total draw (entry0 :: rest) g) as (x & g' & Hrun & _).
    unfold bind. rewrite Hrun. by eexists _, _.
Qed.

Lemma _resolve_srv_total hp w :
  ∃ found w', _resolve_srv draw lookup hp w = (Return found, w').
Proof.
  unfold _resolve_srv, bind, query, on_rng. cbn [w_rng w_queries].
  destruct (_get_solved_entries_total hp
              (match lookup (host hp) with Some ans => ans | None => [] end)
              (w_rng w)) as (found & g' & ->).
  by eexists _, _.
Qed.

(** A lookup that raises [DNSException] is a lookup without answer. *)
Lemma _resolve_srv_failed hp w :
  lookup (host hp) = None →
  _resolve_srv draw lookup hp w
  = on_rng (_get_solved_entries draw hp [])
      (mkWorld (w_rng w) (w_queries w ++ [host hp])).
Proof. intros Hfail. unfold _resolve_srv, bind, query. by rewrite Hfail. Qed.

(** The loop of [resolve] never raises: a failed lookup only yields no
    record for its host. *)
Lemma resolve_loop_total attempts : ∀ hps w,
  ∃ hps' w', resolve_loop draw lookup attempts hps w = (Return hps', w').
Proof.
  induction attempts as [|hp attempts IH]; intros hps w; cbn [resolve_loop].
  - by eexists _, _.
  - destruct (totry hp); [|apply IH].
    unfold bind. destruct (_resolve_srv_total hp w) as (found & w1 & ->).
    apply IH.
Qed.

(** Running a coroutine built with [coro_bind]. *)
Lemma run_task_bind {A B} (t : Task A) (f : A → Task B) : ∀ queries,
  run_task lookup (task_bind t f) queries
  = let '(a, queries') := run_task lookup t queries in
    run_task lookup (f a) queries'.
Proof.
  induction t as [a|name k IH]; intros queries; simpl; [done|]. apply IH.
Qed.

Lemma run_until_complete_bind {A B} (c : @Coro Rng A) (f : A → @Coro Rng B) w :
  run_until_complete lookup (coro_bind c f) w
  = bind (run_until_complete lookup c)
      (λ a, run_until_complete lookup (f a)) w.
Proof.
  unfold run_until_complete, coro_bind, bind. rewrite run_task_bind.
  destruct (run_task lookup (c (w_rng w)) (w_queries w)) as [[[a|e|] g] qs];
    done.
Qed.

Lemma run_until_complete_of {A} (m : @R Rng A) w :
  run_until_complete lookup (coro_of m) w = on_rng m w.
Proof. unfold run_until_complete, coro_of, on_rng. simpl. by destruct (m _). Qed.

Lemma on_rng_ret {A} (a : A) (w : @World Rng) : on_rng (ret a) w = ret a w.
Proof. by destruct w. Qed.

Lemma on_rng_raise {A} e (w : @World Rng) : on_rng (raise (A:=A) e) w = raise e w.
Proof. by destruct w. Qed.

Lemma on_rng_return_params params hps (w : @World Rng) :
  on_rng (_return_params params hps) w = _return_params params hps w.
Proof. destruct hps; [apply on_rng_raise|apply on_rng_ret]. Qed.

Lemma _resolve_srv_async_run hp w :
  run_until_complete lookup (_resolve_srv_async draw hp) w
  = _resolve_srv draw lookup hp w.
Proof.
  unfold _resolve_srv_async, _resolve_srv.
  rewrite run_until_complete_bind. unfold bind.
  unfold run_until_complete at 1, query_async, query. cbn [run_task].
  apply run_until_complete_of.
Qed.

Lemma resolve_async_loop_run attempts : ∀ hps w,
  run_until_complete lookup (resolve_async_loop draw attempts hps) w
  = resolve_loop draw lookup attempts hps w.
Proof.
  induction attempts as [|hp attempts IH]; intros hps w;
    cbn [resolve_async_loop resolve_loop].
  - rewrite run_until_complete_of. apply on_rng_ret.
  - destruct (totry hp); [|apply IH].
    rewrite run_until_complete_bind. unfold bind.
    rewrite _resolve_srv_async_run.
    destruct (_resolve_srv draw lookup hp w) as [[found|e|] w1]; [|done..].
    apply IH.
Qed.

End ResolveFacts.

(** ** Claims on the classifier, the lookups and the rebuilt parameters *)
Section ResolveClaims.
Context {Rng : Type} (draw : Z → Z → Rng → Z * Rng).
Variable lookup : string → option (list SRV).

(** C4, amended. For a record flagged by the classifier and a lookup with
    no answer: when the record carries a target and its port is not "SRV"
    in any letter case, the selector emits the one record
    [{host: target, port: port}]; otherwise it emits nothing. *)
Theorem _get_solved_entries_zero_answers params env attempts hp g :
  _get_attempts params env = Return attempts →
  hp ∈ attempts → totry hp = true →
  _get_solved_entries draw hp [] g
  = (Return match target hp with
            | Some t =>
                if String.eqb (PyStr.lower (port hp)) "srv" then []
                else [mkHostPort t (port hp) false None]
            | None => []
            end, g).
Proof.
  intros Hatt Hin Htry.
  apply _get_attempts_classified in Hatt.
  rewrite Forall_forall in Hatt. specialize (Hatt hp Hin).
  unfold classified in Hatt. rewrite Htry in Hatt.
  cbn [_get_solved_entries]. destruct (target hp) as [t|]; [|done].
  symmetry in Hatt. apply re_srv_rr_match_truthy in Hatt. rewrite Hatt.
  by destruct (String.eqb _ _).
Qed.

(** C5. With no host address in effect, a port list that is not a single
    port and whose length differs from that of the host list makes the
    classifier raise [OperationalError]; [resolve] raises it too, and no
    name has been asked to the resolver. *)
Theorem _get_attempts_mismatch params env w :
  dict_get params "hostaddr" (dict_get env "PGHOSTADDR" "") = "" →
  let hosts_in :=
    PyStr.split "," (dict_get params "host" (dict_get env "PGHOST" "")) in
  let ports_in :=
    PyStr.split "," (dict_get params "port" (dict_get env "PGPORT" "")) in
  length ports_in ≠ 1%nat →
  length ports_in ≠ length hosts_in →
  let err := OperationalError
               (mismatch_msg (length hosts_in) (length ports_in)) in
  _get_attempts params env = Raise err
  ∧ resolve draw lookup params env w = (Raise err, w).
Proof.
  intros Haddr hosts_in ports_in Hone Hlen err.
  assert (_get_attempts params env = Raise err) as Hatt.
  { unfold _get_attempts. rewrite Haddr. cbn [PyStr.truthy].
    fold hosts_in ports_in.
    apply Nat.eqb_neq in Hone, Hlen. by rewrite Hone, Hlen. }
  split; [done|]. unfold resolve. by rewrite Hatt.
Qed.

(** C6. Once the classifier has produced records, the loop of [resolve]
    always ends with a list of records, whatever the lookups answer or
    fail with; [resolve] raises exactly when that list is empty, and then
    it is [OperationalError] "no host found after SRV RR lookup". *)
Theorem resolve_exhausted_iff params env attempts w :
  _get_attempts params env = Return attempts →
  attempts ≠ [] →
  ∃ hps w',
    resolve_loop draw lookup attempts [] w = (Return hps, w')
    ∧ ((∃ e, (resolve draw lookup params env w).1 = Raise e) ↔ hps = [])
    ∧ (hps = [] →
       resolve draw lookup params env w
       = (Raise (OperationalError "no host found after SRV RR lookup"), w'))
    ∧ (hps ≠ [] →
       resolve draw lookup params env w
       = (Return (<["port" := PyStr.join "," (port <$> hps)]>
                    (<["host" := PyStr.join "," (host <$> hps)]> params)), w')).
Proof.
  intros Hatt Hne.
  destruct (resolve_loop_total draw lookup attempts [] w) as (hps & w' & Hloop).
  exists hps, w'. split; [done|].
  unfold resolve. rewrite Hatt.
  destruct attempts as [|hp0 attempts']; [done|].
  unfold bind. rewrite Hloop.
  destruct hps as [|hp hps']; cbn [_return_params raise ret fst].
  - split_and!; [|done..]. split; [done|]. intros _. by eexists.
  - split_and!; [|done..]. split; [by intros [e ?]|done].
Qed.

(** C7. With a non-empty host address in effect (in the parameters, or in
    the environment when the parameters have none) the classifier returns
    no record, [resolve] returns the parameters as they are without asking
    any name, and [resolve_async] ends without awaiting - whatever the
    hosts and ports are. *)
Theorem resolve_hostaddr params env addr w :
  (params !! "hostaddr" = Some addr
   ∨ (params !! "hostaddr" = None ∧ env !! "PGHOSTADDR" = Some addr)) →
  addr ≠ "" →
  _get_attempts params env = Return []
  ∧ resolve draw lookup params env w = (Return params, w)
  ∧ resolve_async draw params env (w_rng w) = Done (Return params, w_rng w).
Proof.
  intros Haddr Hne.
  assert (_get_attempts params env = Return []) as Hatt.
  { unfold _get_attempts, dict_get.
    assert (default (default "" (env !! "PGHOSTADDR")) (params !! "hostaddr")
            = addr) as ->.
    { by destruct Haddr as [->|[-> ->]]. }
    by destruct addr. }
  split; [done|]. unfold resolve, resolve_async. by rewrite Hatt.
Qed.

(** C8, amended. When a host address is in effect, or the port list has one
    element or as many as the host list, and no host matches the SRV
    pattern and no port is "SRV" in any letter case, [resolve] returns the
    parameters as they are without asking any name, and [resolve_async]
    ends without awaiting. *)
Theorem resolve_identity params env w :
  let hosts_in :=
    PyStr.split "," (dict_get params "host" (dict_get env "PGHOST" "")) in
  let ports_in :=
    PyStr.split "," (dict_get params "port" (dict_get env "PGPORT" "")) in
  dict_get params "hostaddr" (dict_get env "PGHOSTADDR" "") ≠ ""
  ∨ length ports_in = 1%nat ∨ length ports_in = length hosts_in →
  Forall (λ h, re_srv_rr_match h = None) hosts_in →
  Forall (λ p, PyStr.lower p ≠ "srv") ports_in →
  resolve draw lookup params env w = (Return params, w)
  ∧ resolve_async draw params env (w_rng w) = Done (Return params, w_rng w).
Proof.
  intros hosts_in ports_in Hlen Hhosts Hports.
  assert (_get_attempts params env = Return []) as Hatt.
  { unfold _get_attempts.
    destruct (dict_get params "hostaddr" (dict_get env "PGHOSTADDR" ""))
      as [|c addr] eqn:Haddr; [|done].
    destruct Hlen as [?|Hlen]; [done|]. cbn [PyStr.truthy].
    fold hosts_in ports_in.
    set (ports := if Nat.eqb (length ports_in) 1
                  then mjoin (replicate (length hosts_in) ports_in)
                  else ports_in).
    assert (length ports = length hosts_in) as Hlen'.
    { unfold ports. destruct (Nat.eqb_spec (length ports_in) 1) as [H1|H1].
      - by apply length_repeat_single.
      - by destruct Hlen. }
    assert (Forall (λ p, PyStr.lower p ≠ "srv") ports) as Hports'.
    { unfold ports. destruct (Nat.eqb (length ports_in) 1); [|done].
      by apply Forall_repeat_list. }
    rewrite Hlen', Nat.eqb_refl. cbn [negb].
    pose proof (classify_no_srv (zip hosts_in ports) []
                  (Forall_zip _ _ _ _ Hhosts Hports')) as Hflag.
    destruct (foldl classify ([], false) (zip hosts_in ports)) as [out found].
    simpl in Hflag. by rewrite Hflag. }
  unfold resolve, resolve_async. by rewrite Hatt.
Qed.

(** C9. Run to completion against a resolver, [resolve_async] gives what
    [resolve] gives with the same resolver: the same parameters or the
    same exception, the same random source left, the same names asked in
    the same order. *)
Theorem resolve_async_agrees params env w :
  run_until_complete lookup (resolve_async draw params env) w
  = resolve draw lookup params env w.
Proof.
  unfold resolve_async, resolve.
  destruct (_get_attempts params env) as [[|hp attempts]|e|].
  - rewrite run_until_complete_of. apply on_rng_ret.
  - rewrite run_until_complete_bind. unfold bind.
    rewrite resolve_async_loop_run.
    destruct (resolve_loop draw lookup (hp :: attempts) [] w)
      as [[hps|e|] w1]; [|done..].
    rewrite run_until_complete_of. apply on_rng_return_params.
  - rewrite run_until_complete_of. apply on_rng_raise.
  - by destruct w.
Qed.

End ResolveClaims.

(** ** Worked examples *)

Lemma stub_draw_in_range b g :
  0 ≤ b → 0 ≤ (Sample.stub_draw 0 b g).1 ≤ b.
Proof. intros Hb. destruct g as [|r g]; simpl; lia. Defined.

(** The walk of the design text on weights 0, 10 and 90 with the draws 1, 90
    and 0: the entry of weight 10, then the one of weight 90, then the one
    of weight 0. *)
Lemma sort_rfc2782_documented_walk_witness :
  (∀ b g0, 0 ≤ b → 0 ≤ (Sample.stub_draw 0 b g0).1 ≤ b)
  ∧ (2 ≤ length (filter (λ e, srv_priority e = 0%N) Sample.one_tier))%nat
  ∧ ∃ out g' emitted g_p,
      sort_rfc2782 Sample.stub_draw Sample.one_tier [1; 90; 0] = (Return out, g')
      ∧ documented_order Sample.stub_draw
          (filter (λ e, srv_priority e = 0%N) Sample.one_tier)
          (sort_rfc2782 Sample.stub_draw
             (filter (λ e, (srv_priority e < 0)%N) Sample.one_tier) [1; 90; 0]).2
        = Some (emitted, g_p)
      ∧ filter (λ e, srv_priority e = 0%N) out = emitted.
Proof.
  assert (2 ≤ length (filter (λ e, srv_priority e = 0%N) Sample.one_tier))%nat
    as Hlen by (vm_compute; lia).
  split; [exact stub_draw_in_range|]. split; [exact Hlen|].
  exact (proj2 (proj2 (sort_rfc2782_documented_walk Sample.stub_draw
                         Sample.one_tier 0%N [1; 90; 0] stub_draw_in_range Hlen))).
Defined.

Example documented_order_one_tier :
  documented_order Sample.stub_draw Sample.one_tier [1; 90; 0]
  = Some ([mkSRV 0 10 5432 "b.example.com."; mkSRV 0 90 5432 "c.example.com.";
           mkSRV 0 0 5432 "a.example.com."], []).
Proof. vm_compute. reflexivity. Qed.

Example sort_rfc2782_one_tier :
  sort_rfc2782 Sample.stub_draw Sample.one_tier [1; 90; 0]
  = (Return [mkSRV 0 10 5432 "b.example.com."; mkSRV 0 90 5432 "c.example.com.";
             mkSRV 0 0 5432 "a.example.com."], []).
Proof. vm_compute. reflexivity. Qed.

(** Answers of priorities 20 and 10: the two of priority 10 come first. *)
Lemma _get_solved_entries_priority_order_witness :
  Sample.two_tiers ≠ []
  ∧ (∀ e, Sample.two_tiers = [e] → srv_target e ≠ ".")
  ∧ ∃ sorted g',
      _get_solved_entries Sample.stub_draw
        (mkHostPort Sample.srv_host "5432" true (Some "db.example.com"))
        Sample.two_tiers [3; 0]
      = (Return (solved_entry <$> sorted), g')
      ∧ sorted ≡ₚ Sample.two_tiers
      ∧ ∀ i j a b, sorted !! i = Some a → sorted !! j = Some b →
          (srv_priority a < srv_priority b)%N → (i < j)%nat.
Proof.
  assert (Sample.two_tiers ≠ []) as Hne by discriminate.
  assert (∀ e, Sample.two_tiers = [e] → srv_target e ≠ ".") as Hroot
    by discriminate.
  split; [exact Hne|]. split; [exact Hroot|].
  exact (_get_solved_entries_priority_order Sample.stub_draw _ _ _ Hne Hroot).
Defined.

Example _get_solved_entries_two_tiers :
  _get_solved_entries Sample.stub_draw
    (mkHostPort Sample.srv_host "5432" true (Some "db.example.com"))
    Sample.two_tiers [3; 0]
  = (Return [HostPort_ "pg2.example.com" "5432"; HostPort_ "pg1.example.com" "5432";
             HostPort_ "away.example.com" "5433"; HostPort_ "far.example.com" "5433"],
     []).
Proof. vm_compute. reflexivity. Qed.

(** C4 as first worded fails: a flagged record with a target and the port
    "srv" (which is not the string "SRV") gets no record on zero answers,
    where the wording promises [{host: target, port: "srv"}]. *)
Lemma zero_answers_lowercase_srv_counterexample :
  let hp := mkHostPort Sample.srv_host "srv" true (Some "db.example.com") in
  _get_attempts (Sample.srv_params "srv") ∅ = Return [hp]
  ∧ target hp = Some "db.example.com"
  ∧ port hp ≠ "SRV"
  ∧ _get_solved_entries Sample.stub_draw hp [] [] = (Return [], [])
  ∧ _get_solved_entries Sample.stub_draw hp [] []
    ≠ (Return [HostPort_ "db.example.com" "srv"], []).
Proof. vm_compute. split_and!; [reflexivity|reflexivity|discriminate|reflexivity|discriminate]. Qed.

(** The fallback of the design text: [_postgresql._tcp.db.example.com] with
    port 5432 and no answer gives [db.example.com:5432]. *)
Lemma _get_solved_entries_zero_answers_witness :
  let hp := mkHostPort Sample.srv_host "5432" true (Some "db.example.com") in
  _get_attempts (Sample.srv_params "5432") ∅ = Return [hp]
  ∧ hp ∈ [hp]
  ∧ totry hp = true
  ∧ _get_solved_entries Sample.stub_draw hp [] []
    = (Return [mkHostPort "db.example.com" "5432" false None], []).
Proof.
  set (hp := mkHostPort Sample.srv_host "5432" true (Some "db.example.com")).
  assert (_get_attempts (Sample.srv_params "5432") ∅ = Return [hp]) as Hatt
    by (vm_compute; reflexivity).
  assert (hp ∈ [hp]) as Hin by apply list_elem_of_here.
  split; [exact Hatt|]. split; [exact Hin|]. split; [reflexivity|].
  exact (_get_solved_entries_zero_answers Sample.stub_draw _ _ _ hp []
           Hatt Hin eq_refl).
Defined.

(** Two hosts and three ports. *)
Lemma _get_attempts_mismatch_witness :
  let params := Sample.plain_params "a,b" "1,2,3" in
  dict_get params "hostaddr" (dict_get ∅ "PGHOSTADDR" "") = ""
  ∧ length (PyStr.split "," (dict_get params "port" (dict_get ∅ "PGPORT" "")))
    ≠ 1%nat
  ∧ length (PyStr.split "," (dict_get params "port" (dict_get ∅ "PGPORT" "")))
    ≠ length (PyStr.split "," (dict_get params "host" (dict_get ∅ "PGHOST" "")))
  ∧ _get_attempts params ∅
    = Raise (OperationalError "cannot match 2 hosts with 3 port numbers")
  ∧ resolve Sample.stub_draw Sample.one_answer params ∅ Sample.world0
    = (Raise (OperationalError "cannot match 2 hosts with 3 port numbers"),
       Sample.world0).
Proof.
  set (params := Sample.plain_params "a,b" "1,2,3").
  assert (dict_get params "hostaddr" (dict_get ∅ "PGHOSTADDR" "") = "") as Haddr
    by (vm_compute; reflexivity).
  assert (length (PyStr.split "," (dict_get params "port" (dict_get ∅ "PGPORT" "")))
          ≠ 1%nat) as Hone by (vm_compute; lia).
  assert (length (PyStr.split "," (dict_get params "port" (dict_get ∅ "PGPORT" "")))
          ≠ length (PyStr.split "," (dict_get params "host" (dict_get ∅ "PGHOST" ""))))
    as Hlen by (vm_compute; lia).
  split; [exact Haddr|]. split; [exact Hone|]. split; [exact Hlen|].
  exact (_get_attempts_mismatch Sample.stub_draw Sample.one_answer params ∅
           Sample.world0 Haddr Hone Hlen).
Defined.

(** The end-to-end example of the design text: one answer for the SRV name,
    so the list is not empty and the parameters are rebuilt. *)
Lemma resolve_exhausted_iff_witness :
  let params := Sample.srv_params "5432" in
  let hp := mkHostPort Sample.srv_host "5432" true (Some "db.example.com") in
  _get_attempts params ∅ = Return [hp]
  ∧ [hp] ≠ []
  ∧ ∃ hps w',
      resolve_loop Sample.stub_draw Sample.one_answer [hp] [] Sample.world0
      = (Return hps, w')
      ∧ ((∃ e, (resolve Sample.stub_draw Sample.one_answer params ∅
                  Sample.world0).1 = Raise e) ↔ hps = [])
      ∧ (hps = [] →
         resolve Sample.stub_draw Sample.one_answer params ∅ Sample.world0
         = (Raise (OperationalError "no host found after SRV RR lookup"), w'))
      ∧ (hps ≠ [] →
         resolve Sample.stub_draw Sample.one_answer params ∅ Sample.world0
         = (Return (<["port" := PyStr.join "," (port <$> hps)]>
                      (<["host" := PyStr.join "," (host <$> hps)]> params)), w')).
Proof.
  set (params := Sample.srv_params "5432").
  set (hp := mkHostPort Sample.srv_host "5432" true (Some "db.example.com")).
  assert (_get_attempts params ∅ = Return [hp]) as Hatt by (vm_compute; reflexivity).
  assert ([hp] ≠ []) as Hne by discriminate.
  split; [exact Hatt|]. split; [exact Hne|].
  exact (resolve_exhausted_iff Sample.stub_draw Sample.one_answer params ∅ [hp]
           Sample.world0 Hatt Hne).
Defined.

Example resolve_end_to_end :
  resolve Sample.stub_draw Sample.one_answer (Sample.srv_params "5432") ∅
    Sample.world0
  = (Return (Sample.plain_params "pg1.example.com" "5432"),
     mkWorld [] [Sample.srv_host]).
Proof. vm_compute. reflexivity. Qed.

(** No answer and no target to fall back on: the port is "SRV" and the host
    is a plain name. *)
Example resolve_end_to_end_failure :
  resolve Sample.stub_draw Sample.one_answer
    (Sample.plain_params "db.example.com" "SRV") ∅ Sample.world0
  = (Raise (OperationalError "no host found after SRV RR lookup"),
     mkWorld [] ["db.example.com"]).
Proof. vm_compute. reflexivity. Qed.

(** A host address in the parameters, with lists that do not even match. *)
Lemma resolve_hostaddr_witness :
  let params := <["hostaddr" := "10.0.0.1"]> (Sample.plain_params "a,b" "1,2,3") in
  (params !! "hostaddr" = Some "10.0.0.1"
   ∨ (params !! "hostaddr" = None ∧ (∅ : gmap string string) !! "PGHOSTADDR" = Some "10.0.0.1"))
  ∧ "10.0.0.1" ≠ ""
  ∧ _get_attempts params ∅ = Return []
  ∧ resolve Sample.stub_draw Sample.one_answer params ∅ Sample.world0
    = (Return params, Sample.world0)
  ∧ resolve_async Sample.stub_draw params ∅ (w_rng Sample.world0)
    = Done (Return params, w_rng Sample.world0).
Proof.
  set (params := <["hostaddr" := "10.0.0.1"]> (Sample.plain_params "a,b" "1,2,3")).
  assert (params !! "hostaddr" = Some "10.0.0.1"
          ∨ (params !! "hostaddr" = None
             ∧ (∅ : gmap string string) !! "PGHOSTADDR" = Some "10.0.0.1")) as Haddr
    by (left; vm_compute; reflexivity).
  assert ("10.0.0.1" ≠ "") as Hne by discriminate.
  split; [exact Haddr|]. split; [exact Hne|].
  exact (resolve_hostaddr Sample.stub_draw Sample.one_answer params ∅ "10.0.0.1"
           Sample.world0 Haddr Hne).
Defined.

(** C8 as first worded fails: two plain hosts and three plain ports have no
    SRV name and no "SRV" port, and [resolve] raises instead of returning
    the parameters. *)
Lemma resolve_identity_mismatch_counterexample :
  let params := Sample.plain_params "a,b" "1,2,3" in
  Forall (λ h, re_srv_rr_match h = None)
    (PyStr.split "," (dict_get params "host" (dict_get ∅ "PGHOST" "")))
  ∧ Forall (λ p, PyStr.lower p ≠ "srv")
      (PyStr.split "," (dict_get params "port" (dict_get ∅ "PGPORT" "")))
  ∧ resolve Sample.stub_draw Sample.one_answer params ∅ Sample.world0
    = (Raise (OperationalError "cannot match 2 hosts with 3 port numbers"),
       Sample.world0)
  ∧ resolve Sample.stub_draw Sample.one_answer params ∅ Sample.world0
    ≠ (Return params, Sample.world0)
  ∧ run_until_complete Sample.one_answer
      (resolve_async Sample.stub_draw params ∅) Sample.world0
    ≠ (Return params, Sample.world0).
Proof.
  split_and!.
  - vm_compute. repeat constructor.
  - vm_compute. repeat constructor; discriminate.
  - vm_compute. reflexivity.
  - vm_compute. discriminate.
  - vm_compute. discriminate.
Qed.

(** Two plain hosts sharing one port. *)
Lemma resolve_identity_witness :
  let params := Sample.plain_params "db1.example.com,db2.example.com" "5432" in
  let hosts_in := PyStr.split "," (dict_get params "host" (dict_get ∅ "PGHOST" "")) in
  let ports_in := PyStr.split "," (dict_get params "port" (dict_get ∅ "PGPORT" "")) in
  (dict_get params "hostaddr" (dict_get ∅ "PGHOSTADDR" "") ≠ ""
   ∨ length ports_in = 1%nat ∨ length ports_in = length hosts_in)
  ∧ Forall (λ h, re_srv_rr_match h = None) hosts_in
  ∧ Forall (λ p, PyStr.lower p ≠ "srv") ports_in
  ∧ resolve Sample.stub_draw Sample.one_answer params ∅ Sample.world0
    = (Return params, Sample.world0)
  ∧ resolve_async Sample.stub_draw params ∅ (w_rng Sample.world0)
    = Done (Return params, w_rng Sample.world0).
Proof.
  set (params := Sample.plain_params "db1.example.com,db2.example.com" "5432").
  set (hosts_in := PyStr.split "," (dict_get params "host" (dict_get ∅ "PGHOST" ""))).
  set (ports_in := PyStr.split "," (dict_get params "port" (dict_get ∅ "PGPORT" ""))).
  assert (dict_get params "hostaddr" (dict_get ∅ "PGHOSTADDR" "") ≠ ""
          ∨ length ports_in = 1%nat ∨ length ports_in = length hosts_in) as Hlen
    by (right; left; vm_compute; reflexivity).
  assert (Forall (λ h, re_srv_rr_match h = None) hosts_in) as Hhosts
    by (vm_compute; repeat constructor).
  assert (Forall (λ p, PyStr.lower p ≠ "srv") ports_in) as Hports
    by (vm_compute; repeat constructor; discriminate).
  split; [exact Hlen|]. split; [exact Hhosts|]. split; [exact Hports|].
  exact (resolve_identity Sample.stub_draw Sample.one_answer params ∅
           Sample.world0 Hlen Hhosts Hports).
Defined.

(** * Further properties *)

(** ** Splitting and joining comma-separated lists *)
Section SplitJoinFacts.

Lemma contains_app c s1 s2 :
  PyStr.contains c (s1 +:+ s2) = PyStr.contains c s1 || PyStr.contains c s2.
Proof.
  induction s1 as [|a s1 IH]; [done|].
  rewrite string_app_cons. simpl. rewrite IH. by rewrite orb_assoc.
Qed.

Lemma split_nonempty sep s : PyStr.split sep s ≠ [].
Proof.
  pose proof (split_length_pos sep s). destruct (PyStr.split sep s); [simpl in *; lia|done].
Qed.

(** The pieces [split] returns do not hold the separator. *)
Lemma split_pieces sep s :
  Forall (λ w, PyStr.contains sep w = false) (PyStr.split sep s).
Proof.
  induction s as [|a s IH]; simpl; [by repeat constructor|].
  destruct (Ascii.eqb_spec a sep) as [->|Hne].
  - by constructor.
  - assert (Ascii.eqb a sep = false) as Ha by (by apply Ascii.eqb_neq).
    destruct (PyStr.split sep s) as [|w ws].
    + constructor; [|done]. simpl. by rewrite Ha.
    + apply Forall_cons in IH as [Hw Hws]. constructor; [|done].
      simpl. by rewrite Ha.
Qed.

Lemma split_no_sep sep w :
  PyStr.contains sep w = false → PyStr.split sep w = [w].
Proof.
  induction w as [|a w IH]; simpl; [done|].
  destruct (Ascii.eqb a sep); [done|]. simpl. intros Hw. by rewrite IH.
Qed.

Lemma split_app_sep sep w rest :
  PyStr.contains sep w = false →
  PyStr.split sep (w +:+ String sep rest) = w :: PyStr.split sep rest.
Proof.
  induction w as [|a w IH]; intros Hw.
  - rewrite string_app_empty. simpl. by rewrite Ascii.eqb_refl.
  - rewrite string_app_cons. simpl in *.
    destruct (Ascii.eqb a sep); [done|]. simpl in Hw. by rewrite IH.
Qed.

Lemma join_cons sep w (l : list string) :
  l ≠ [] → PyStr.join sep (w :: l) = w +:+ sep +:+ PyStr.join sep l.
Proof. by destruct l. Qed.

(** [sep.join(s.split(sep)) == s] *)
Lemma join_of_split sep s :
  PyStr.join (String sep "") (PyStr.split sep s) = s.
Proof.
  induction s as [|a s IH]; [done|]. cbn [PyStr.split].
  pose proof (split_nonempty sep s) as Hs.
  destruct (Ascii.eqb_spec a sep) as [->|Hne].
  - rewrite join_cons, IH by done. by rewrite string_app_empty.
  - destruct (PyStr.split sep s) as [|w ws] eqn:Hsplit; [done|].
    destruct ws as [|w' ws].
    + simpl in *. by rewrite IH.
    + rewrite join_cons in IH by done. rewrite join_cons by done.
      by rewrite string_app_cons, IH.
Qed.

(** [sep.join(l).split(sep) == l] for a list that is not empty and whose
    elements do not hold the separator. *)
Lemma split_of_join sep (l : list string) :
  l ≠ [] →
  Forall (λ w, PyStr.contains sep w = false) l →
  PyStr.split sep (PyStr.join (String sep "") l) = l.
Proof.
  intros Hne Hl. induction Hl as [|w l Hw Hl IH]; [done|].
  destruct l as [|w' l].
  - simpl. by apply split_no_sep.
  - rewrite join_cons by done. rewrite string_app_cons, string_app_empty.
    rewrite split_app_sep by done. f_equal. by apply IH.
Qed.

End SplitJoinFacts.

(** ** Strings without a comma *)
Section NoCommaFacts.

Lemma pretty_N_char_no_comma x : Ascii.eqb (pretty_N_char x) "," = false.
Proof. unfold pretty_N_char. by repeat case_match. Qed.

Lemma pretty_N_go_no_comma x : ∀ s,
  no_comma s → no_comma (pretty_N_go x s).
Proof.
  induction (N.lt_wf_0 x) as [x _ IH]; intros s Hs.
  destruct (decide (x = 0)%N) as [->|Hx].
  - by rewrite pretty_N_go_0.
  - rewrite pretty_N_go_step by lia. apply IH.
    + apply N.div_lt; lia.
    + unfold no_comma in *. simpl. by rewrite pretty_N_char_no_comma, Hs.
Qed.

(** [str(entry.port)] is made of digits. *)
Lemma pretty_N_no_comma (x : N) : no_comma (pretty x).
Proof.
  unfold pretty, pretty_N. case_decide; [done|]. by apply pretty_N_go_no_comma.
Qed.

Lemma rstrip_no_comma c s : no_comma s → no_comma (PyStr.rstrip c s).
Proof.
  unfold no_comma. induction s as [|a s IH]; [done|]. simpl.
  intros [Ha Hs]%orb_false_iff. specialize (IH Hs).
  destruct (PyStr.rstrip c s) as [|b r].
  - destruct (Ascii.eqb a c); [done|]. simpl. by rewrite Ha.
  - simpl in *. by rewrite Ha, IH.
Qed.

Lemma span_not_no_comma c s : no_comma s → no_comma (PyStr.span_not c s).1.
Proof.
  unfold no_comma. intros Hs.
  destruct (PyStr.span_not c s) as [p r] eqn:Hsp.
  apply span_not_spec in Hsp as (-> & _ & _).
  rewrite contains_app in Hs. by apply orb_false_iff in Hs as [? _].
Qed.

Lemma match_label_no_comma s rest :
  match_label s = Some rest → no_comma s → no_comma rest.
Proof.
  intros (label & -> & _ & _)%match_label_spec. unfold no_comma.
  rewrite !contains_app. intros H.
  repeat (apply orb_false_iff in H as [_ H]). done.
Qed.

(** The target taken out of a host without comma has no comma. *)
Lemma re_srv_rr_match_no_comma h t :
  re_srv_rr_match h = Some t → no_comma h → no_comma t.
Proof.
  unfold re_srv_rr_match.
  destruct (match_label h) as [r1|] eqn:H1; [|done].
  destruct (match_label r1) as [r2|] eqn:H2; [|done].
  intros Ht Hh.
  apply (match_label_no_comma _ _ H1) in Hh.
  apply (match_label_no_comma _ _ H2) in Hh.
  apply (span_not_no_comma "010") in Hh.
  destruct (PyStr.span_not "010" r2).1; [done|]. by simplify_eq.
Qed.

End NoCommaFacts.

(** ** What the classifier returns *)
Section AttemptsFacts.

Lemma classify_fold l : ∀ out found,
  foldl classify (out, found) l
  = (out ++ (attempt_of <$> l), found || existsb totry (attempt_of <$> l)).
Proof.
  induction l as [|[h p] l IH]; intros out found.
  - simpl. by rewrite app_nil_r, orb_false_r.
  - cbn [foldl classify]. rewrite fmap_cons. cbn [existsb].
    remember (attempt_of (h, p)) as a eqn:Ha.
    unfold attempt_of in Ha. cbn [fst snd] in Ha.
    destruct (bool_decide (is_Some (re_srv_rr_match h))
              || String.eqb (PyStr.lower p) "srv");
      subst a; rewrite IH, <-app_assoc; cbn [totry HostPort_ orb app]; [|done].
    by rewrite orb_true_r.
Qed.

Lemma replicate_single {A} (x : A) n : mjoin (replicate n [x]) = replicate n x.
Proof. induction n as [|n IH]; simpl; by rewrite ?IH. Qed.

(** The ports once a single port has been given to every host. *)
Lemma _get_attempts_zip params env attempts :
  _get_attempts params env = Return attempts → attempts ≠ [] →
  ∃ ports,
    ports = match ports_of params env with
            | [p] => replicate (length (hosts_of params env)) p
            | ports_in => ports_in
            end
    ∧ length ports = length (hosts_of params env)
    ∧ attempts = attempt_of <$> zip (hosts_of params env) ports
    ∧ existsb totry attempts = true.
Proof.
  unfold _get_attempts. destruct (PyStr.truthy _); [by intros [= <-]|].
  fold (hosts_of params env) (ports_of params env).
  set (ports := if Nat.eqb (length (ports_of params env)) 1 then _ else _).
  assert (ports = match ports_of params env with
                  | [p] => replicate (length (hosts_of params env)) p
                  | ports_in => ports_in
                  end) as Hports.
  { unfold ports. destruct (ports_of params env) as [|p [|p' ps]]; try done.
    simpl. apply replicate_single. }
  destruct (Nat.eqb_spec (length ports) (length (hosts_of params env)))
    as [Hlen|Hlen]; [|done]. cbn [negb].
  rewrite classify_fold. cbn [app orb].
  destruct (existsb totry _) eqn:Hfound; [|by intros [= <-]].
  intros [= <-] _. by exists ports.
Qed.

Lemma attempt_of_host hp : host (attempt_of hp) = hp.1.
Proof. unfold attempt_of. by destruct (_ || _). Qed.

Lemma attempt_of_port hp : port (attempt_of hp) = hp.2.
Proof. unfold attempt_of. by destruct (_ || _). Qed.

Lemma attempt_of_target hp : target (attempt_of hp) = re_srv_rr_match hp.1.
Proof.
  unfold attempt_of. destruct (re_srv_rr_match hp.1) eqn:Hm; simpl; [done|].
  by destruct (String.eqb _ _).
Qed.

Lemma attempt_of_totry hp :
  totry (attempt_of hp) = true
  ↔ is_Some (re_srv_rr_match hp.1) ∨ PyStr.lower hp.2 = "srv".
Proof.
  unfold attempt_of.
  destruct (re_srv_rr_match hp.1) as [t|] eqn:Hm; simpl.
  - split; [|done]. intros _. left. by eexists.
  - destruct (String.eqb_spec (PyStr.lower hp.2) "srv") as [Heq|Hne]; simpl.
    + split; auto.
    + split; [done|]. intros [[? [=]]|?]; done.
Qed.

Lemma zip_hosts_ports_comma_free params env ports :
  ports = match ports_of params env with
          | [p] => replicate (length (hosts_of params env)) p
          | ports_in => ports_in
          end →
  Forall (λ hp, no_comma hp.1 ∧ no_comma hp.2) (zip (hosts_of params env) ports).
Proof.
  intros ->. apply Forall_zip; [apply split_pieces|].
  pose proof (split_pieces "," (dict_get params "port" (dict_get env "PGPORT" "")))
    as Hp. fold (ports_of params env) in Hp.
  destruct (ports_of params env) as [|p [|p' ps]]; try done.
  apply Forall_cons in Hp as [Hp _]. by apply Forall_replicate.
Qed.

Lemma attempt_of_comma_free hp :
  no_comma hp.1 → no_comma hp.2 → comma_free (attempt_of hp).
Proof.
  intros Hh Hp. unfold comma_free.
  rewrite attempt_of_host, attempt_of_port, attempt_of_target.
  split_and!; [done..|]. intros t Ht. by eapply re_srv_rr_match_no_comma.
Qed.

Lemma _get_attempts_comma_free params env attempts :
  _get_attempts params env = Return attempts → Forall comma_free attempts.
Proof.
  intros Hatt. destruct attempts as [|hp0 attempts']; [done|].
  destruct (_get_attempts_zip _ _ _ Hatt) as (ports & Hports & _ & -> & _); [done|].
  apply Forall_fmap. eapply Forall_impl;
    [by apply zip_hosts_ports_comma_free|].
  intros hp [? ?]. by apply attempt_of_comma_free.
Qed.

End AttemptsFacts.

(** ** What the selector and the loop of [resolve] return *)
Section ResolveLoopFacts.
Context {Rng : Type} (draw : Z → Z → Rng → Z * Rng).
Variable lookup : string → option (list SRV).

Lemma _get_solved_entries_settled hp entries g found g' :
  _get_solved_entries draw hp entries g = (Return found, g') →
  Forall settled found.
Proof.
  destruct entries as [|entry0 rest]; cbn [_get_solved_entries].
  - destruct (target hp) as [t|]; [|by intros [= <- _]].
    destruct (_ && _); intros [= <- _]; by repeat constructor.
  - destruct (_ && _); [by intros [= <- _]|].
    unfold bind. destruct (sort_rfc2782 draw (entry0 :: rest) g) as [[x| |] g1];
      [|done..].
    intros [= <- _]. apply Forall_fmap, Forall_forall. by intros.
Qed.

Lemma _get_solved_entries_comma_free hp entries g found g' :
  comma_free hp →
  Forall (λ e, no_comma (srv_target e)) entries →
  _get_solved_entries draw hp entries g = (Return found, g') →
  Forall comma_free found.
Proof.
  intros (Hh & Hp & Ht) Hentries.
  destruct entries as [|entry0 rest]; cbn [_get_solved_entries].
  - destruct (target hp) as [t|]; [|by intros [= <- _]].
    destruct (_ && _); intros [= <- _]; [|done].
    repeat constructor; [by apply Ht|done|done].
  - destruct (_ && _); [by intros [= <- _]|].
    unfold bind.
    destruct (sort_rfc2782_total draw (entry0 :: rest) g) as (x & g1 & -> & Hx).
    intros [= <- _]. apply Forall_fmap. rewrite Hx.
    eapply Forall_impl; [exact Hentries|].
    intros e He. split_and!; [by apply rstrip_no_comma|apply pretty_N_no_comma|done].
Qed.

(** What one blocking lookup leaves: the name asked, and the records of the
    selector for the answer. *)
Lemma _resolve_srv_inv hp w found w' :
  _resolve_srv draw lookup hp w = (Return found, w') →
  w_queries w' = w_queries w ++ [host hp]
  ∧ _get_solved_entries draw hp
      (match lookup (host hp) with Some ans => ans | None => [] end) (w_rng w)
    = (Return found, w_rng w').
Proof.
  unfold _resolve_srv, bind, query, on_rng. cbn [w_rng w_queries].
  destruct (_get_solved_entries draw hp _ (w_rng w)) as [o g1].
  by intros [= -> <-].
Qed.

(** The names asked by the loop: the flagged hosts, in order. *)
Lemma resolve_loop_queries attempts : ∀ hps w hps' w',
  resolve_loop draw lookup attempts hps w = (Return hps', w') →
  w_queries w'
  = w_queries w ++ (host <$> filter (λ hp, totry hp = true) attempts).
Proof.
  induction attempts as [|hp attempts IH]; intros hps w hps' w';
    cbn [resolve_loop].
  - intros [= _ <-]. by rewrite app_nil_r.
  - rewrite filter_cons. destruct (totry hp) eqn:Htry.
    + rewrite decide_True by done. unfold bind.
      destruct (_resolve_srv draw lookup hp w) as [[found|e|] w1] eqn:Hsrv;
        [|done..].
      apply _resolve_srv_inv in Hsrv as [Hq _].
      intros Hloop%IH. rewrite Hloop, Hq, <-app_assoc. done.
    + rewrite decide_False by done. apply IH.
Qed.

(** The records of the loop: those it started with, then for each attempt
    in turn the attempt itself when it is not flagged. *)
Lemma resolve_loop_sublist attempts : ∀ hps w hps' w',
  resolve_loop draw lookup attempts hps w = (Return hps', w') →
  ∃ found, hps' = hps ++ found
    ∧ filter (λ hp, totry hp = false) attempts `sublist_of` found.
Proof.
  induction attempts as [|hp attempts IH]; intros hps w hps' w';
    cbn [resolve_loop].
  - intros [= <- _]. exists []. by rewrite app_nil_r.
  - rewrite filter_cons. destruct (totry hp) eqn:Htry.
    + rewrite decide_False by done. unfold bind.
      destruct (_resolve_srv draw lookup hp w) as [[found|e|] w1]; [|done..].
      intros (rest & -> & Hsub)%IH. exists (found ++ rest).
      split; [by rewrite app_assoc|]. by apply sublist_inserts_l.
    + rewrite decide_True by done.
      intros (rest & -> & Hsub)%IH. exists (hp :: rest).
      split; [by rewrite <-app_assoc|]. by apply sublist_skip.
Qed.

(** A property of records that the loop keeps. *)
Lemma resolve_loop_Forall (Q : HostPort → Prop) attempts : ∀ hps w hps' w',
  Forall (λ hp, totry hp = false → Q hp) attempts →
  Forall (λ hp, ∀ g found g',
            _get_solved_entries draw hp
              (match lookup (host hp) with Some ans => ans | None => [] end) g
            = (Return found, g') → Forall Q found) attempts →
  Forall Q hps →
  resolve_loop draw lookup attempts hps w = (Return hps', w') →
  Forall Q hps'.
Proof.
  induction attempts as [|hp attempts IH]; intros hps w hps' w' Hpass Hsolved Hhps;
    cbn [resolve_loop].
  - by intros [= <- _].
  - apply Forall_cons in Hpass as [Hpass1 Hpass].
    apply Forall_cons in Hsolved as [Hsolved1 Hsolved].
    destruct (totry hp) eqn:Htry.
    + unfold bind.
      destruct (_resolve_srv draw lookup hp w) as [[found|e|] w1] eqn:Hsrv;
        [|done..].
      apply _resolve_srv_inv in Hsrv as [_ Hsel].
      apply IH; [done..|]. apply Forall_app. split; [done|].
      by eapply Hsolved1.
    + apply IH; [done..|]. apply Forall_app. split; [done|].
      constructor; [by apply Hpass1|done].
Qed.

End ResolveLoopFacts.

(** ** Properties of the classifier *)
Section AttemptsProperties.

(** X2. When the classifier returns records, there is one per host of the host
    list, in the order of the list, and one at least is flagged. *)
Theorem _get_attempts_hosts params env attempts :
  _get_attempts params env = Return attempts → attempts ≠ [] →
  host <$> attempts = hosts_of params env
  ∧ Exists (λ hp, totry hp = true) attempts.
Proof.
  intros Hatt Hne.
  destruct (_get_attempts_zip _ _ _ Hatt Hne) as (ports & _ & Hlen & -> & Hex).
  split.
  - rewrite <-list_fmap_compose.
    rewrite (list_fmap_ext _ fst _ (λ _ hp _, attempt_of_host hp)).
    apply fst_zip. lia.
  - apply Exists_exists. apply existsb_exists in Hex as (hp & Hin & Htry).
    exists hp. split; [by apply list_elem_of_In|done].
Qed.

(** X3. A single port is given to every host; several ports are taken as they
    come. *)
Theorem _get_attempts_ports params env attempts :
  _get_attempts params env = Return attempts → attempts ≠ [] →
  port <$> attempts
  = match ports_of params env with
    | [p] => replicate (length (hosts_of params env)) p
    | ports_in => ports_in
    end.
Proof.
  intros Hatt Hne.
  destruct (_get_attempts_zip _ _ _ Hatt Hne) as (ports & <- & Hlen & -> & _).
  rewrite <-list_fmap_compose.
  rewrite (list_fmap_ext _ snd _ (λ _ hp _, attempt_of_port hp)).
  apply snd_zip. lia.
Qed.

(** X4. A record of the classifier is flagged exactly when its host matches
    [re_srv_rr] or its port is "srv" in any letter case, and its target is
    the target group of the match, if any. *)
Theorem _get_attempts_flagged_iff params env attempts hp :
  _get_attempts params env = Return attempts → hp ∈ attempts →
  (totry hp = true
   ↔ is_Some (re_srv_rr_match (host hp)) ∨ PyStr.lower (port hp) = "srv")
  ∧ target hp = re_srv_rr_match (host hp).
Proof.
  intros Hatt Hin.
  destruct (_get_attempts_zip _ _ _ Hatt) as (ports & _ & _ & -> & _).
  { intros ->. by apply elem_of_nil in Hin. }
  apply list_elem_of_fmap in Hin as (hp0 & -> & _).
  rewrite attempt_of_host, attempt_of_port, attempt_of_target.
  split; [apply attempt_of_totry|done].
Qed.

End AttemptsProperties.

(** ** Properties of [resolve_srv] *)
Section ResolveProperties.
Context {Rng : Type} (draw : Z → Z → Rng → Z * Rng).
Variable lookup : string → option (list SRV).

Lemma sublist_elem {A} (l1 l2 : list A) x :
  l1 `sublist_of` l2 → x ∈ l1 → x ∈ l2.
Proof.
  induction 1 as [|y l1 l2 _ IH|y l1 l2 _ IH]; [done|..].
  - intros [->|?]%elem_of_cons; apply elem_of_cons; auto.
  - intros ?. apply elem_of_cons; auto.
Qed.

(** The classifier returns records or raises the mismatch error. *)
Lemma _get_attempts_outcome params env :
  (∃ attempts, _get_attempts params env = Return attempts)
  ∨ _get_attempts params env
    = Raise (OperationalError
               (mismatch_msg (length (hosts_of params env))
                  (length (ports_of params env)))).
Proof.
  unfold _get_attempts. destruct (PyStr.truthy _); [by left; eexists|].
  fold (hosts_of params env) (ports_of params env).
  destruct (Nat.eqb_spec (length (ports_of params env)) 1) as [H1|H1].
  - rewrite length_repeat_single, Nat.eqb_refl by done. cbn [negb].
    destruct (foldl classify _ _). left. by eexists.
  - destruct (negb _); [by right|].
    destruct (foldl classify _ _). left. by eexists.
Qed.

(** The coroutine run to its end is the blocking call. *)
Lemma resolve_srv_async_run params env w :
  run_until_complete lookup (resolve_srv_async draw params env) w
  = resolve_srv draw lookup params env w.
Proof.
  unfold resolve_srv_async, resolve_srv, resolve_async, resolve.
  destruct (_get_attempts params env) as [[|hp attempts]|e|].
  - rewrite run_until_complete_of. apply on_rng_ret.
  - rewrite run_until_complete_bind. unfold bind.
    rewrite resolve_async_loop_run.
    destruct (resolve_loop draw lookup (hp :: attempts) [] w)
      as [[hps|e|] w1]; [|done..].
    rewrite run_until_complete_of. apply on_rng_return_params.
  - rewrite run_until_complete_of. apply on_rng_raise.
  - by destruct w.
Qed.

(** What [resolve_srv] does once the classifier has returned records. *)
Lemma resolve_srv_unfold params env attempts w :
  _get_attempts params env = Return attempts → attempts ≠ [] →
  ∃ hps w', resolve_loop draw lookup attempts [] w = (Return hps, w')
    ∧ resolve_srv draw lookup params env w = _return_params params hps w'.
Proof.
  intros Hatt Hne.
  destruct (resolve_loop_total draw lookup attempts [] w) as (hps & w' & Hloop).
  exists hps, w'. split; [done|].
  unfold resolve_srv, resolve. rewrite Hatt.
  destruct attempts; [done|]. unfold bind. by rewrite Hloop.
Qed.

Lemma _return_params_cases params hps (w : @World Rng) :
  (hps = []
   ∧ _return_params params hps w
     = (Raise (OperationalError "no host found after SRV RR lookup"), w))
  ∨ (hps ≠ []
     ∧ _return_params params hps w
       = (Return (<["port" := PyStr.join "," (port <$> hps)]>
                    (<["host" := PyStr.join "," (host <$> hps)]> params)), w)).
Proof. destruct hps; [by left|by right]. Qed.

Lemma _return_params_queries params hps (w : @World Rng) :
  (_return_params params hps w).2 = w.
Proof. by destruct hps. Qed.

(** X7. [resolve_srv] asks the resolver the flagged hosts, each once, in the
    order of the host list, and nothing else; [resolve_srv_async] awaits
    the same names. *)
Theorem resolve_srv_queries params env w :
  let asked :=
    match _get_attempts params env with
    | Return attempts => host <$> filter (λ hp, totry hp = true) attempts
    | _ => []
    end in
  w_queries (resolve_srv draw lookup params env w).2 = w_queries w ++ asked
  ∧ w_queries
      (run_until_complete lookup (resolve_srv_async draw params env) w).2
    = w_queries w ++ asked.
Proof.
  intros asked. rewrite resolve_srv_async_run.
  assert (w_queries (resolve_srv draw lookup params env w).2
          = w_queries w ++ asked) as H; [|done].
  unfold asked.
  destruct (_get_attempts params env) as [attempts|e|] eqn:Hatt.
  - destruct (decide (attempts = [])) as [->|Hne].
    + unfold resolve_srv, resolve. rewrite Hatt. simpl. by rewrite app_nil_r.
    + destruct (resolve_srv_unfold _ _ _ w Hatt Hne) as (hps & w' & Hloop & ->).
      rewrite _return_params_queries. by eapply resolve_loop_queries.
  - unfold resolve_srv, resolve. rewrite Hatt. simpl. by rewrite app_nil_r.
  - unfold resolve_srv, resolve. rewrite Hatt. simpl. by rewrite app_nil_r.
Qed.

(** X8. The hosts that need no lookup are carried into the final list as they
    are and in their order, and no record of the final list asks for a
    further lookup. *)
Theorem resolve_loop_pass_through params env attempts w hps w' :
  _get_attempts params env = Return attempts →
  resolve_loop draw lookup attempts [] w = (Return hps, w') →
  filter (λ hp, totry hp = false) attempts `sublist_of` hps
  ∧ Forall settled hps.
Proof.
  intros Hatt Hloop. split.
  - by destruct (resolve_loop_sublist _ _ _ _ _ _ _ Hloop) as (found & -> & ?).
  - eapply (resolve_loop_Forall draw lookup settled); [| |done|exact Hloop].
    + apply Forall_forall. intros hp Hin Htry. split; [done|].
      destruct (_get_attempts_zip params env attempts Hatt)
        as (ports & _ & _ & -> & _).
      { intros ->. by apply elem_of_nil in Hin. }
      apply list_elem_of_fmap in Hin as (hp0 & -> & _).
      rewrite attempt_of_target.
      destruct (re_srv_rr_match hp0.1) eqn:Hm; [|done].
      assert (totry (attempt_of hp0) = true) as Hflag
        by (apply attempt_of_totry; left; rewrite Hm; by eexists).
      congruence.
    + apply Forall_forall. intros hp _ g found g'.
      apply _get_solved_entries_settled.
Qed.

(** X9. When SRV processing has taken place and no answer has a comma in its
    target, the host and port of the returned parameters are comma-separated
    lists of the same length. *)
Theorem resolve_srv_lists_consistent params env attempts w out w' :
  (∀ name ans, lookup name = Some ans →
     Forall (λ e, no_comma (srv_target e)) ans) →
  _get_attempts params env = Return attempts → attempts ≠ [] →
  resolve_srv draw lookup params env w = (Return out, w') →
  ∃ hosts ports,
    out !! "host" = Some hosts ∧ out !! "port" = Some ports
    ∧ length (PyStr.split "," hosts) = length (PyStr.split "," ports).
Proof.
  intros Htargets Hatt Hne.
  destruct (resolve_srv_unfold _ _ _ w Hatt Hne) as (hps & w1 & Hloop & ->).
  assert (Forall comma_free hps) as Hfree.
  { eapply (resolve_loop_Forall draw lookup comma_free); [| |done|exact Hloop].
    - eapply Forall_impl; [by eapply _get_attempts_comma_free|]. by intros.
    - eapply Forall_impl; [by eapply _get_attempts_comma_free|].
      intros hp Hhp g found g'. apply _get_solved_entries_comma_free; [done|].
      destruct (lookup (host hp)) as [ans|] eqn:Hans; [by eapply Htargets|done]. }
  destruct (_return_params_cases params hps w1) as [[_ ->]|[Hhps ->]]; [done|].
  intros [= <- _]. eexists _, _. split_and!.
  - rewrite lookup_insert_ne by done. apply lookup_insert_eq.
  - apply lookup_insert_eq.
  - assert (∀ f : HostPort → string, f <$> hps ≠ []) as Hmap
      by (intros f; by destruct hps).
    rewrite !split_of_join, !length_fmap; [done|apply Hmap| |apply Hmap|].
    + apply Forall_fmap. eapply Forall_impl; [exact Hfree|]. by intros ? (? & ? & ?).
    + apply Forall_fmap. eapply Forall_impl; [exact Hfree|]. by intros ? (? & ? & ?).
Qed.

(** X10. [resolve_srv] raises nothing but [OperationalError], with one of two
    messages; a mismatch is raised before anything is asked or drawn. *)
Theorem resolve_srv_errors params env w :
  match resolve_srv draw lookup params env w with
  | (Return _, _) => True
  | (Raise (OperationalError msg), w') =>
      msg = "no host found after SRV RR lookup"
      ∨ (msg = mismatch_msg (length (hosts_of params env))
                 (length (ports_of params env)) ∧ w' = w)
  | _ => False
  end.
Proof.
  destruct (_get_attempts_outcome params env) as [[attempts Hatt]|Hatt].
  - destruct (decide (attempts = [])) as [->|Hne].
    + unfold resolve_srv, resolve. by rewrite Hatt.
    + destruct (resolve_srv_unfold _ _ _ w Hatt Hne) as (hps & w' & _ & ->).
      destruct (_return_params_cases params hps w') as [[_ ->]|[_ ->]]; auto.
  - unfold resolve_srv, resolve. rewrite Hatt. simpl. auto.
Qed.

(** X11. With a host that needs no lookup beside the flagged ones, [resolve_srv]
    returns parameters whatever the lookups answer or fail with, and that
    host is among the hosts returned. *)
Theorem resolve_srv_pass_through_returns params env attempts hp w :
  _get_attempts params env = Return attempts →
  hp ∈ attempts → totry hp = false →
  ∃ hps w',
    hp ∈ hps
    ∧ resolve_srv draw lookup params env w
      = (Return (<["port" := PyStr.join "," (port <$> hps)]>
                   (<["host" := PyStr.join "," (host <$> hps)]> params)), w').
Proof.
  intros Hatt Hin Htry.
  assert (attempts ≠ []) as Hne by (intros ->; by apply elem_of_nil in Hin).
  destruct (resolve_srv_unfold _ _ _ w Hatt Hne) as (hps & w' & Hloop & ->).
  destruct (resolve_loop_sublist _ _ _ _ _ _ _ Hloop) as (found & Hhps & Hsub).
  simpl in Hhps. subst found.
  assert (hp ∈ hps) as Hhp.
  { eapply sublist_elem; [exact Hsub|]. by apply list_elem_of_filter. }
  destruct (_return_params_cases params hps w') as [[-> _]|[_ ->]];
    [by apply elem_of_nil in Hhp|].
  by exists hps, w'.
Qed.

(** X12. Parameters given explicitly hide the environment: with [hostaddr],
    [host] and [port] all among the parameters (an empty [hostaddr]
    included), [resolve_srv] does not depend on [os.environ]. *)
Theorem resolve_srv_env_hidden params env env' w :
  is_Some (params !! "hostaddr") → is_Some (params !! "host") →
  is_Some (params !! "port") →
  resolve_srv draw lookup params env w = resolve_srv draw lookup params env' w.
Proof.
  intros [a Ha] [h Hh] [p Hp].
  assert (_get_attempts params env = _get_attempts params env') as Hatt.
  { unfold _get_attempts, dict_get. by rewrite Ha, Hh, Hp. }
  unfold resolve_srv, resolve. by rewrite Hatt.
Qed.

(** X13. [resolve_srv] returns the parameters it was given but for [host] and
    [port]: every other key keeps its value, or stays absent. *)
Theorem resolve_srv_other_keys params env w out w' k :
  resolve_srv draw lookup params env w = (Return out, w') →
  k ≠ "host" → k ≠ "port" → out !! k = params !! k.
Proof.
  intros Hres Hhost Hport.
  destruct (_get_attempts_outcome params env) as [[attempts Hatt]|Hatt].
  - destruct (decide (attempts = [])) as [->|Hne].
    + unfold resolve_srv, resolve in Hres. rewrite Hatt in Hres.
      by injection Hres as <- _.
    + destruct (resolve_srv_unfold _ _ _ w Hatt Hne) as (hps & w1 & _ & Heq).
      rewrite Heq in Hres.
      destruct (_return_params_cases params hps w1) as [[_ Hr]|[_ Hr]];
        rewrite Hr in Hres; [done|].
      injection Hres as <- _. by rewrite !lookup_insert_ne.
  - unfold resolve_srv, resolve in Hres. by rewrite Hatt in Hres.
Qed.

End ResolveProperties.

(** ** Properties of the ordering *)
Section OrderingProperties.
Context {Rng : Type} (draw : Z → Z → Rng → Z * Rng).

Lemma dict_append_fresh p e (d : list (N * list SRV)) :
  p ∉ d.*1 → dict_append p e d = d ++ [(p, [e])].
Proof.
  induction d as [|[k es] d IH]; [done|]. rewrite fmap_cons. simpl.
  intros Hp. destruct (N.eqb_spec k p) as [->|Hne].
  - exfalso. apply Hp, elem_of_cons. auto.
  - rewrite IH; [done|]. intros ?. apply Hp, elem_of_cons. auto.
Qed.

Lemma divide_by_priority_distinct ans :
  NoDup (srv_priority <$> ans) →
  divide_by_priority ans = (λ e, (srv_priority e, [e])) <$> ans.
Proof.
  induction ans as [|e ans IH] using rev_ind; [done|].
  rewrite fmap_app. intros (Hnd & Hfresh & _)%NoDup_app.
  rewrite divide_by_priority_snoc, IH, fmap_app by done.
  apply dict_append_fresh. rewrite <-list_fmap_compose.
  intros Hin. apply (Hfresh _ Hin). simpl. apply elem_of_cons. auto.
Qed.

Lemma insert_by_fmap {A B} (key : B → N) (f : A → B) x (l : list A) :
  insert_by key (f x) (f <$> l) = f <$> insert_by (key ∘ f) x l.
Proof.
  induction l as [|y l IH]; [done|]. rewrite fmap_cons.
  cbn [insert_by compose].
  destruct (key (f x) <=? key (f y))%N; [done|]. by rewrite fmap_cons, IH.
Qed.

Lemma sort_by_fmap {A B} (key : B → N) (f : A → B) (l : list A) :
  sort_by key (f <$> l) = f <$> sort_by (key ∘ f) l.
Proof.
  induction l as [|x l IH]; [done|]. rewrite fmap_cons.
  cbn [sort_by foldr]. fold (sort_by key (f <$> l)) (sort_by (key ∘ f) l).
  by rewrite IH, insert_by_fmap.
Qed.

Lemma sort_tiers_singletons (l : list SRV) : ∀ out g,
  sort_tiers draw ((λ e, (srv_priority e, [e])) <$> l) out g
  = (Return (out ++ l), g).
Proof.
  induction l as [|e l IH]; intros out g; simpl.
  - by rewrite app_nil_r.
  - unfold bind. simpl. rewrite IH. by rewrite <-app_assoc.
Qed.

(** X15. Answers whose priorities all differ are returned sorted by priority,
    and no random number is drawn. *)
Theorem sort_rfc2782_distinct_priorities ans g :
  NoDup (srv_priority <$> ans) →
  sort_rfc2782 draw ans g = (Return (sort_by srv_priority ans), g).
Proof.
  intros Hnd. unfold sort_rfc2782.
  rewrite divide_by_priority_distinct by done.
  rewrite (sort_by_fmap fst (λ e, (srv_priority e, [e]))).
  apply sort_tiers_singletons.
Qed.

Lemma walk_positive rest : ∀ r csum i ent,
  csum < r → r ≤ csum + sum_weights (ent :: rest) →
  (0 < srv_weight (walk r csum i ent rest).2)%N.
Proof.
  induction rest as [|ent' rest IH]; intros r csum i ent Hlt Hle;
    cbn [walk]; cbn [sum_weights foldr] in Hle.
  - destruct (Z.leb_spec r (csum + Z.of_N (srv_weight ent))); simpl; lia.
  - destruct (Z.leb_spec r (csum + Z.of_N (srv_weight ent))); [simpl; lia|].
    apply IH; [lia|]. cbn [sum_weights foldr]. lia.
Qed.

(** X16. In the walk of a tier, a draw above 0 (and within the total weight)
    never stops on an entry of weight 0: such an entry is only picked by
    the draw 0. *)
Theorem walk_positive_draw ent0 rest r :
  0 < r → r ≤ sum_weights (ent0 :: rest) →
  (0 < srv_weight (walk r 0 0 ent0 rest).2)%N.
Proof. intros Hr Hle. apply walk_positive; lia. Qed.

(** X17. The first loop of [sort_rfc2782] files every answer under its priority:
    the tiers have distinct priorities, and the tier of a priority holds
    exactly the answers of that priority, in the order they came. *)
Theorem divide_by_priority_groups ans :
  NoDup ((divide_by_priority ans).*1)
  ∧ ∀ k es, (k, es) ∈ divide_by_priority ans
      ↔ es = filter (λ e, srv_priority e = k) ans ∧ es ≠ [].
Proof.
  destruct (divide_by_priority_tiers ans) as [Hnd Hel Hco].
  split; [done|]. intros k es. split; [apply Hel|].
  intros [-> Hne].
  destruct (filter (λ e, srv_priority e = k) ans) as [|e l] eqn:Hf; [done|].
  assert (e ∈ filter (λ e, srv_priority e = k) ans) as He
    by (rewrite Hf; apply elem_of_cons; auto).
  apply list_elem_of_filter in He as [<- He].
  apply Hco, list_elem_of_fmap in He as ([k' es'] & Hk & Hin).
  simpl in Hk. subst k'. destruct (Hel _ _ Hin) as [Hes' _].
  rewrite Hf in Hes'. by subst es'.
Qed.

End OrderingProperties.

(** ** Properties of the sort and of the string methods *)
Section SortAndStringProperties.

Lemma sort_by_constant {A} (key : A → N) k (l : list A) :
  Forall (λ x, key x = k) l → sort_by key l = l.
Proof.
  induction 1 as [|x l Hx Hl IH]; [done|]. simpl. rewrite IH.
  apply insert_by_below. eapply Forall_impl; [exact Hl|].
  intros y Hy. unfold key_le. simpl in *. rewrite Hx, Hy. lia.
Qed.

(** X18. [list.sort(key=...)] as modelled: the result is a permutation in
    ascending key order in which elements of equal key keep the order they
    had. *)
Theorem sort_by_stable {A} (key : A → N) (l : list A) :
  sort_by key l ≡ₚ l
  ∧ StronglySorted (key_le key) (sort_by key l)
  ∧ ∀ k, filter (λ x, key x = k) (sort_by key l) = filter (λ x, key x = k) l.
Proof.
  split_and!; [apply sort_by_Permutation|apply sort_by_sorted|].
  intros k. rewrite sort_by_filter. apply (sort_by_constant key k).
  apply Forall_forall. by intros x [? _]%list_elem_of_filter.
Qed.

Lemma rstrip_spec c s :
  ∃ n, s = PyStr.rstrip c s +:+ repeat_char c n
       ∧ ends_with c (PyStr.rstrip c s) = false.
Proof.
  induction s as [|a s (n & Hs & Hend)]; [by exists 0%nat|]. cbn [PyStr.rstrip].
  destruct (PyStr.rstrip c s) as [|b r] eqn:Hr.
  - rewrite string_app_empty in Hs. subst s.
    destruct (Ascii.eqb_spec a c) as [->|Hne].
    + by exists (S n).
    + exists n. split; [done|]. simpl. by apply Ascii.eqb_neq.
  - exists n. split; [by rewrite string_app_cons, <-Hs|]. done.
Qed.

(** X19. The record made of an answer: its host is the target without its
    trailing dots, and does not end with a dot; its port is the port number
    in decimal; it asks for no further lookup. *)
Theorem solved_entry_spec entry :
  (∃ n, srv_target entry = host (solved_entry entry) +:+ repeat_char "." n)
  ∧ ends_with "." (host (solved_entry entry)) = false
  ∧ port (solved_entry entry) = pretty (srv_port entry)
  ∧ settled (solved_entry entry).
Proof.
  destruct (rstrip_spec "." (srv_target entry)) as (n & Hs & Hend).
  split_and!; [by exists n|done..].
Qed.

End SortAndStringProperties.

(** ** The cases of the classifier *)
Section AttemptsCases.

Lemma truthy_false s : PyStr.truthy s = false ↔ s = "".
Proof. by destruct s. Qed.

(** X5. The classifier raises exactly when no host address is in effect and the
    port list has neither one element nor as many as the host list. *)
Theorem _get_attempts_raises_iff params env :
  (∃ e, _get_attempts params env = Raise e)
  ↔ dict_get params "hostaddr" (dict_get env "PGHOSTADDR" "") = ""
    ∧ length (ports_of params env) ≠ 1%nat
    ∧ length (ports_of params env) ≠ length (hosts_of params env).
Proof.
  unfold _get_attempts.
  fold (hosts_of params env) (ports_of params env).
  destruct (PyStr.truthy _) eqn:Haddr.
  - split; [by intros [e ?]|]. intros [Hempty _].
    apply truthy_false in Hempty. congruence.
  - apply truthy_false in Haddr.
    destruct (Nat.eqb_spec (length (ports_of params env)) 1) as [H1|H1].
    + rewrite length_repeat_single, Nat.eqb_refl by done. cbn [negb].
      destruct (foldl classify _ _). split; [by intros [e ?]|]. by intros (_ & ? & _).
    + destruct (Nat.eqb_spec (length (ports_of params env))
                  (length (hosts_of params env))) as [Hlen|Hlen]; cbn [negb].
      * destruct (foldl classify _ _). split; [by intros [e ?]|].
        by intros (_ & _ & ?).
      * split; [done|]. intros _. by eexists.
Qed.

(** X6. The classifier returns no record only when there is nothing to look
    up: a host address is in effect, or no host matches [re_srv_rr] and no
    port is "srv" in any letter case. *)
Theorem _get_attempts_nothing_to_do params env :
  _get_attempts params env = Return [] →
  dict_get params "hostaddr" (dict_get env "PGHOSTADDR" "") ≠ ""
  ∨ (Forall (λ h, re_srv_rr_match h = None) (hosts_of params env)
     ∧ Forall (λ p, PyStr.lower p ≠ "srv") (ports_of params env)).
Proof.
  unfold _get_attempts.
  fold (hosts_of params env) (ports_of params env).
  destruct (PyStr.truthy _) eqn:Haddr.
  { intros _. left. intros Hempty%truthy_false. congruence. }
  set (ports := if Nat.eqb (length (ports_of params env)) 1 then _ else _).
  destruct (Nat.eqb_spec (length ports) (length (hosts_of params env)))
    as [Hlen|Hlen]; [|done]. cbn [negb].
  rewrite classify_fold. cbn [app orb].
  pose proof (split_length_pos ","
                (dict_get params "host" (dict_get env "PGHOST" ""))) as Hpos.
  fold (hosts_of params env) in Hpos.
  destruct (existsb totry _) eqn:Hfound.
  { intros [= Hnil]. apply (f_equal length) in Hnil.
    rewrite length_fmap, length_zip in Hnil. simpl in Hnil. lia. }
  intros _. right.
  assert (Forall (λ hp, re_srv_rr_match hp.1 = None ∧ PyStr.lower hp.2 ≠ "srv")
            (zip (hosts_of params env) ports)) as Hzip.
  { apply Forall_forall. intros hp Hin.
    assert (totry (attempt_of hp) = false) as Hflag.
    { apply not_true_is_false. intros Htry.
      assert (existsb totry (attempt_of <$> zip (hosts_of params env) ports) = true)
        as Hex; [|congruence].
      apply existsb_exists. exists (attempt_of hp).
      split; [|done]. apply list_elem_of_In. by apply list_elem_of_fmap_2. }
    split.
    - destruct (re_srv_rr_match hp.1) eqn:Hm; [|done].
      assert (totry (attempt_of hp) = true); [|congruence].
      apply attempt_of_totry. left. rewrite Hm. by eexists.
    - intros Hsrv. assert (totry (attempt_of hp) = true); [|congruence].
      apply attempt_of_totry. by right. }
  assert (Forall (λ h, re_srv_rr_match h = None) (hosts_of params env)
          ∧ Forall (λ p, PyStr.lower p ≠ "srv") ports) as [Hhosts Hports].
  { rewrite <-(fst_zip (hosts_of params env) ports) at 1 by lia.
    rewrite <-(snd_zip (hosts_of params env) ports) at 2 by lia.
    split; apply Forall_fmap; eapply Forall_impl; try exact Hzip; by intros ? [? ?]. }
  split; [done|]. unfold ports in Hports, Hlen.
  destruct (Nat.eqb_spec (length (ports_of params env)) 1) as [H1|H1]; [|done].
  destruct (ports_of params env) as [|p [|p' ps]]; try done.
  rewrite replicate_single in Hports.
  destruct (length (hosts_of params env)); [lia|].
  apply Forall_cons in Hports as [Hp _]. by repeat constructor.
Qed.

End AttemptsCases.

(** ** The fallback on the target *)
Section FallbackProperties.
Context {Rng : Type} (draw : Z → Z → Rng → Z * Rng).
Variable lookup : string → option (list SRV).

(** X14. A single SRV name whose lookup fails or has no answer: [resolve_srv]
    asks the name once and returns the parameters with the target of the
    name as host and the port as it was, unless the port is "srv". *)
Theorem resolve_srv_fallback params env hp t w :
  _get_attempts params env = Return [hp] →
  target hp = Some t →
  PyStr.lower (port hp) ≠ "srv" →
  lookup (host hp) = None ∨ lookup (host hp) = Some [] →
  resolve_srv draw lookup params env w
  = (Return (<["port" := port hp]> (<["host" := t]> params)),
     mkWorld (w_rng w) (w_queries w ++ [host hp])).
Proof.
  intros Hatt Ht Hport Hlook.
  pose proof (_get_attempts_classified _ _ _ Hatt) as Hcl.
  apply Forall_cons in Hcl as [Hcl _]. unfold classified in Hcl.
  rewrite Ht in Hcl. destruct (totry hp) eqn:Htry; [|done].
  symmetry in Hcl. apply re_srv_rr_match_truthy in Hcl.
  unfold resolve_srv, resolve. rewrite Hatt.
  unfold bind. cbn [resolve_loop]. rewrite Htry.
  unfold bind, _resolve_srv, bind, query, on_rng. cbn [w_rng w_queries].
  assert (match lookup (host hp) with Some ans => ans | None => [] end = [])
    as -> by (by destruct Hlook as [-> | ->]).
  cbn [_get_solved_entries]. rewrite Ht, Hcl.
  apply String.eqb_neq in Hport. rewrite Hport. done.
Qed.

End FallbackProperties.

(** ** Round trips of the comma-separated lists *)

(** X20. [",".join(s.split(","))] gives [s] back, for any separator. *)
Theorem join_split_round_trip sep s :
  PyStr.join (String sep "") (PyStr.split sep s) = s.
Proof. apply join_of_split. Qed.

(** X21. [sep.join(l).split(sep)] gives [l] back when [l] is not empty and none
    of its elements holds the separator - as the hosts and the ports of the
    rebuilt parameters. *)
Theorem split_join_round_trip sep (l : list string) :
  l ≠ [] →
  Forall (λ w, PyStr.contains sep w = false) l →
  PyStr.split sep (PyStr.join (String sep "") l) = l.
Proof. apply split_of_join. Qed.

(** ** The number of random draws *)
Section DrawCount.
Context {Rng : Type} (draw : Z → Z → Rng → Z * Rng).

Lemma weighted_loop_counted fuel : ∀ entries out n g,
  (length entries ≤ fuel)%nat →
  weighted_loop (counted draw) fuel entries (sum_weights entries) out (n, g)
  = with_count (n + length entries)
      (weighted_loop draw fuel entries (sum_weights entries) out g).
Proof.
  induction fuel as [|fuel IH]; intros [|ent0 rest] out n g Hlen;
    try (simpl in Hlen; lia);
    try (unfold with_count; simpl; by rewrite Nat.add_0_r).
  cbn [weighted_loop]. unfold bind at 1 2, randint, counted. cbn [fst snd].
  pose proof (sum_weights_nonneg (ent0 :: rest)) as Hnn.
  destruct (Z.leb_spec 0 (sum_weights (ent0 :: rest))); [|lia].
  destruct (draw 0 (sum_weights (ent0 :: rest)) g) as [r g1].
  destruct (walk_lookup rest r 0 0%nat ent0) as (k & e & -> & Hk).
  cbn [Nat.add]. rewrite <-(sum_weights_delete _ _ _ Hk).
  rewrite IH by (rewrite length_delete by eauto; simpl in *; lia).
  rewrite length_delete by eauto.
  by replace (S n + (length (ent0 :: rest) - 1))%nat
    with (n + length (ent0 :: rest))%nat by (simpl; lia).
Qed.

(** The draws a tier takes: none when it has one entry, one per entry
    otherwise. *)
Lemma sort_tier_counted entries out n g :
  sort_tier (counted draw) entries out (n, g)
  = with_count (n + (if decide (2 ≤ length entries)%nat then length entries else 0))
      (sort_tier draw entries out g).
Proof.
  unfold sort_tier. destruct entries as [|e [|e' rest]].
  - unfold with_count. simpl. by rewrite Nat.add_0_r.
  - unfold with_count. simpl. by rewrite Nat.add_0_r.
  - rewrite decide_True by (simpl; lia).
    rewrite weighted_loop_counted by done. by rewrite sort_by_length.
Qed.

Lemma sort_tiers_counted tiers : ∀ out n g,
  sort_tiers (counted draw) tiers out (n, g)
  = with_count
      (n + sum_list ((λ t, if decide (2 ≤ length t.2)%nat then length t.2 else 0%nat)
                       <$> tiers))
      (sort_tiers draw tiers out g).
Proof.
  induction tiers as [|[k es] tiers IH]; intros out n g.
  - unfold with_count. simpl. by rewrite Nat.add_0_r.
  - cbn [sort_tiers]. unfold bind. rewrite sort_tier_counted.
    destruct (sort_tier draw es out g) as [[x| |] g1] eqn:Htier;
      unfold with_count at 1; cbn [fst snd].
    + rewrite IH, fmap_cons. cbn [sum_list sum_list_with snd].
      by rewrite Nat.add_assoc.
    + by destruct (sort_tier_total draw es g) as (? & ? & Hrun & _);
        rewrite sort_tier_acc, Hrun in Htier.
    + by destruct (sort_tier_total draw es g) as (? & ? & Hrun & _);
        rewrite sort_tier_acc, Hrun in Htier.
Qed.

Lemma filter_length_join {A} (P : A → Prop) `{!∀ x, Decision (P x)}
    (ls : list (list A)) :
  length (filter P (mjoin ls)) = sum_list ((λ l, length (filter P l)) <$> ls).
Proof.
  induction ls as [|l ls IH]; [done|]. simpl.
  by rewrite filter_app, length_app, IH.
Qed.

Lemma tiers_draws_needed ans (tiers : list (N * list SRV)) :
  tiers_of ans tiers → tiers ≡ₚ divide_by_priority ans →
  sum_list ((λ t, if decide (2 ≤ length t.2)%nat then length t.2 else 0%nat)
              <$> tiers)
  = draws_needed ans.
Proof.
  intros Htiers Hperm. unfold draws_needed.
  set (P := λ e, (2 ≤ length (filter (λ e', srv_priority e' = srv_priority e) ans))%nat).
  assert (ans ≡ₚ mjoin (tiers.*2)) as Hans
    by (by rewrite Hperm, divide_by_priority_join).
  rewrite (Permutation_length (filter_Permutation P _ _ Hans)).
  rewrite filter_length_join, <-list_fmap_compose.
  f_equal. apply list_fmap_ext. intros _ [k es] Hin%list_elem_of_lookup_2. simpl.
  destruct (tiers_elem _ _ Htiers _ _ Hin) as [Hes _].
  assert (∀ e, e ∈ es → P e ↔ (2 ≤ length es)%nat) as HP.
  { intros e He. unfold P. rewrite Hes in He.
    apply list_elem_of_filter in He as [-> _]. by rewrite <-Hes. }
  destruct (decide (2 ≤ length es)%nat) as [Hlen|Hlen].
  - rewrite filter_all; [done|]. apply Forall_forall. intros e He. by apply HP.
  - rewrite filter_none; [done|]. apply Forall_forall. intros e He ?%HP; done.
Qed.

(** X22. [sort_rfc2782] calls [randint] once for every answer that shares its
    priority with another answer, and never for an answer alone in its
    tier: run on a source that counts the calls, it gives the same result
    and the count goes up by the number of such answers. *)
Theorem sort_rfc2782_draws ans n g :
  sort_rfc2782 (counted draw) ans (n, g)
  = with_count (n + draws_needed ans) (sort_rfc2782 draw ans g).
Proof.
  unfold sort_rfc2782. rewrite sort_tiers_counted.
  rewrite (tiers_draws_needed ans); [done|apply sorted_tiers_of|].
  apply sort_by_Permutation.
Qed.

End DrawCount.

(** ** Worked examples of the further properties *)

Lemma _get_attempts_mixed :
  _get_attempts MoreSamples.mixed_params ∅
  = Return [MoreSamples.flagged; MoreSamples.plain].
Proof. vm_compute. reflexivity. Defined.

Lemma mixed_not_empty : [MoreSamples.flagged; MoreSamples.plain] ≠ [].
Proof. discriminate. Defined.

Lemma _get_attempts_hosts_witness :
  _get_attempts MoreSamples.mixed_params ∅
  = Return [MoreSamples.flagged; MoreSamples.plain]
  ∧ [MoreSamples.flagged; MoreSamples.plain] ≠ []
  ∧ host <$> [MoreSamples.flagged; MoreSamples.plain]
    = hosts_of MoreSamples.mixed_params ∅
  ∧ Exists (λ hp, totry hp = true) [MoreSamples.flagged; MoreSamples.plain].
Proof.
  split; [exact _get_attempts_mixed|]. split; [exact mixed_not_empty|].
  exact (_get_attempts_hosts _ _ _ _get_attempts_mixed mixed_not_empty).
Defined.

Lemma _get_attempts_ports_witness :
  _get_attempts MoreSamples.mixed_params ∅
  = Return [MoreSamples.flagged; MoreSamples.plain]
  ∧ [MoreSamples.flagged; MoreSamples.plain] ≠ []
  ∧ port <$> [MoreSamples.flagged; MoreSamples.plain] = ["5432"; "5432"].
Proof.
  split; [exact _get_attempts_mixed|]. split; [exact mixed_not_empty|].
  exact (_get_attempts_ports _ _ _ _get_attempts_mixed mixed_not_empty).
Defined.

Lemma _get_attempts_flagged_iff_witness :
  _get_attempts MoreSamples.mixed_params ∅
  = Return [MoreSamples.flagged; MoreSamples.plain]
  ∧ MoreSamples.flagged ∈ [MoreSamples.flagged; MoreSamples.plain]
  ∧ (totry MoreSamples.flagged = true
     ↔ is_Some (re_srv_rr_match (host MoreSamples.flagged))
       ∨ PyStr.lower (port MoreSamples.flagged) = "srv")
  ∧ target MoreSamples.flagged = re_srv_rr_match (host MoreSamples.flagged).
Proof.
  assert (MoreSamples.flagged ∈ [MoreSamples.flagged; MoreSamples.plain])
    as Hin by apply list_elem_of_here.
  split; [exact _get_attempts_mixed|]. split; [exact Hin|].
  exact (_get_attempts_flagged_iff _ _ _ _ _get_attempts_mixed Hin).
Defined.

Lemma _get_attempts_nothing_to_do_witness :
  let params := Sample.plain_params "db1.example.com,db2.example.com" "5432" in
  _get_attempts params ∅ = Return []
  ∧ (dict_get params "hostaddr" (dict_get ∅ "PGHOSTADDR" "") ≠ ""
     ∨ (Forall (λ h, re_srv_rr_match h = None) (hosts_of params ∅)
        ∧ Forall (λ p, PyStr.lower p ≠ "srv") (ports_of params ∅))).
Proof.
  set (params := Sample.plain_params "db1.example.com,db2.example.com" "5432").
  assert (_get_attempts params ∅ = Return []) as Hatt by (vm_compute; reflexivity).
  split; [exact Hatt|]. exact (_get_attempts_nothing_to_do params ∅ Hatt).
Defined.

Lemma resolve_loop_mixed :
  resolve_loop Sample.stub_draw Sample.one_answer
    [MoreSamples.flagged; MoreSamples.plain] [] Sample.world0
  = (Return [HostPort_ "pg1.example.com" "5432"; MoreSamples.plain],
     mkWorld [] [Sample.srv_host]).
Proof. vm_compute. reflexivity. Defined.

Lemma resolve_loop_pass_through_witness :
  _get_attempts MoreSamples.mixed_params ∅
  = Return [MoreSamples.flagged; MoreSamples.plain]
  ∧ resolve_loop Sample.stub_draw Sample.one_answer
      [MoreSamples.flagged; MoreSamples.plain] [] Sample.world0
    = (Return [HostPort_ "pg1.example.com" "5432"; MoreSamples.plain],
       mkWorld [] [Sample.srv_host])
  ∧ filter (λ hp, totry hp = false) [MoreSamples.flagged; MoreSamples.plain]
    `sublist_of` [HostPort_ "pg1.example.com" "5432"; MoreSamples.plain]
  ∧ Forall settled [HostPort_ "pg1.example.com" "5432"; MoreSamples.plain].
Proof.
  split; [exact _get_attempts_mixed|]. split; [exact resolve_loop_mixed|].
  exact (resolve_loop_pass_through Sample.stub_draw Sample.one_answer _ _ _ _ _ _
           _get_attempts_mixed resolve_loop_mixed).
Defined.

Lemma one_answer_no_comma name ans :
  Sample.one_answer name = Some ans →
  Forall (λ e, no_comma (srv_target e)) ans.
Proof.
  unfold Sample.one_answer. destruct (String.eqb name Sample.srv_host); [|discriminate].
  intros [= <-]. repeat constructor.
Defined.

Lemma resolve_srv_mixed :
  resolve_srv Sample.stub_draw Sample.one_answer MoreSamples.mixed_params ∅
    Sample.world0
  = (Return (Sample.plain_params "pg1.example.com,db2.example.com" "5432,5432"),
     mkWorld [] [Sample.srv_host]).
Proof. vm_compute. reflexivity. Defined.

Lemma resolve_srv_lists_consistent_witness :
  (∀ name ans, Sample.one_answer name = Some ans →
     Forall (λ e, no_comma (srv_target e)) ans)
  ∧ _get_attempts MoreSamples.mixed_params ∅
    = Return [MoreSamples.flagged; MoreSamples.plain]
  ∧ [MoreSamples.flagged; MoreSamples.plain] ≠ []
  ∧ resolve_srv Sample.stub_draw Sample.one_answer MoreSamples.mixed_params ∅
      Sample.world0
    = (Return (Sample.plain_params "pg1.example.com,db2.example.com" "5432,5432"),
       mkWorld [] [Sample.srv_host])
  ∧ ∃ hosts ports,
      Sample.plain_params "pg1.example.com,db2.example.com" "5432,5432" !! "host"
      = Some hosts
      ∧ Sample.plain_params "pg1.example.com,db2.example.com" "5432,5432" !! "port"
        = Some ports
      ∧ length (PyStr.split "," hosts) = length (PyStr.split "," ports).
Proof.
  split; [exact one_answer_no_comma|]. split; [exact _get_attempts_mixed|].
  split; [exact mixed_not_empty|]. split; [exact resolve_srv_mixed|].
  exact (resolve_srv_lists_consistent Sample.stub_draw Sample.one_answer _ _ _ _ _ _
           one_answer_no_comma _get_attempts_mixed mixed_not_empty
           resolve_srv_mixed).
Defined.

Lemma resolve_srv_pass_through_returns_witness :
  _get_attempts MoreSamples.mixed_params ∅
  = Return [MoreSamples.flagged; MoreSamples.plain]
  ∧ MoreSamples.plain ∈ [MoreSamples.flagged; MoreSamples.plain]
  ∧ totry MoreSamples.plain = false
  ∧ ∃ hps w',
      MoreSamples.plain ∈ hps
      ∧ resolve_srv Sample.stub_draw MoreSamples.no_answer
          MoreSamples.mixed_params ∅ Sample.world0
        = (Return (<["port" := PyStr.join "," (port <$> hps)]>
                     (<["host" := PyStr.join "," (host <$> hps)]>
                        MoreSamples.mixed_params)), w').
Proof.
  assert (MoreSamples.plain ∈ [MoreSamples.flagged; MoreSamples.plain])
    as Hin by apply list_elem_of_further, list_elem_of_here.
  split; [exact _get_attempts_mixed|]. split; [exact Hin|]. split; [reflexivity|].
  exact (resolve_srv_pass_through_returns Sample.stub_draw MoreSamples.no_answer
           _ _ _ _ Sample.world0 _get_attempts_mixed Hin eq_refl).
Defined.

Lemma resolve_srv_env_hidden_witness :
  is_Some (MoreSamples.explicit_params !! "hostaddr")
  ∧ is_Some (MoreSamples.explicit_params !! "host")
  ∧ is_Some (MoreSamples.explicit_params !! "port")
  ∧ resolve_srv Sample.stub_draw Sample.one_answer MoreSamples.explicit_params
      MoreSamples.addr_env Sample.world0
    = resolve_srv Sample.stub_draw Sample.one_answer MoreSamples.explicit_params
        ∅ Sample.world0.
Proof.
  assert (is_Some (MoreSamples.explicit_params !! "hostaddr")) as Ha
    by (exists ""; vm_compute; reflexivity).
  assert (is_Some (MoreSamples.explicit_params !! "host")) as Hh
    by (exists Sample.srv_host; vm_compute; reflexivity).
  assert (is_Some (MoreSamples.explicit_params !! "port")) as Hp
    by (exists "5432"; vm_compute; reflexivity).
  split; [exact Ha|]. split; [exact Hh|]. split; [exact Hp|].
  exact (resolve_srv_env_hidden Sample.stub_draw Sample.one_answer _ _ _ _
           Ha Hh Hp).
Defined.

Lemma resolve_srv_other_keys_witness :
  let params := <["dbname" := "test"]> MoreSamples.mixed_params in
  let out := <["dbname" := "test"]>
               (Sample.plain_params "pg1.example.com,db2.example.com" "5432,5432") in
  resolve_srv Sample.stub_draw Sample.one_answer params ∅ Sample.world0
  = (Return out, mkWorld [] [Sample.srv_host])
  ∧ "dbname" ≠ "host" ∧ "dbname" ≠ "port"
  ∧ out !! "dbname" = params !! "dbname".
Proof.
  set (params := <["dbname" := "test"]> MoreSamples.mixed_params).
  set (out := <["dbname" := "test"]>
                (Sample.plain_params "pg1.example.com,db2.example.com" "5432,5432")).
  assert (resolve_srv Sample.stub_draw Sample.one_answer params ∅ Sample.world0
          = (Return out, mkWorld [] [Sample.srv_host])) as Hres
    by (vm_compute; reflexivity).
  assert ("dbname" ≠ "host") as H1 by discriminate.
  assert ("dbname" ≠ "port") as H2 by discriminate.
  split; [exact Hres|]. split; [exact H1|]. split; [exact H2|].
  exact (resolve_srv_other_keys Sample.stub_draw Sample.one_answer _ _ _ _ _
           "dbname" Hres H1 H2).
Defined.

Lemma resolve_srv_fallback_witness :
  _get_attempts (Sample.srv_params "5432") ∅ = Return [MoreSamples.flagged]
  ∧ target MoreSamples.flagged = Some "db.example.com"
  ∧ PyStr.lower (port MoreSamples.flagged) ≠ "srv"
  ∧ (MoreSamples.no_answer (host MoreSamples.flagged) = None
     ∨ MoreSamples.no_answer (host MoreSamples.flagged) = Some [])
  ∧ resolve_srv Sample.stub_draw MoreSamples.no_answer (Sample.srv_params "5432")
      ∅ Sample.world0
    = (Return (<["port" := "5432"]>
                 (<["host" := "db.example.com"]> (Sample.srv_params "5432"))),
       mkWorld [] [Sample.srv_host]).
Proof.
  assert (_get_attempts (Sample.srv_params "5432") ∅
          = Return [MoreSamples.flagged]) as Hatt by (vm_compute; reflexivity).
  assert (PyStr.lower (port MoreSamples.flagged) ≠ "srv") as Hport by discriminate.
  assert (MoreSamples.no_answer (host MoreSamples.flagged) = None
          ∨ MoreSamples.no_answer (host MoreSamples.flagged) = Some []) as Hlook
    by (left; reflexivity).
  split; [exact Hatt|]. split; [reflexivity|]. split; [exact Hport|].
  split; [exact Hlook|].
  exact (resolve_srv_fallback Sample.stub_draw MoreSamples.no_answer _ _ _ _
           Sample.world0 Hatt eq_refl Hport Hlook).
Defined.

Lemma sort_rfc2782_distinct_priorities_witness :
  NoDup (srv_priority <$> MoreSamples.distinct)
  ∧ sort_rfc2782 Sample.stub_draw MoreSamples.distinct [7]
    = (Return [mkSRV 10 1 5432 "pg1.example.com.";
               mkSRV 20 5 5433 "far.example.com."], [7]).
Proof.
  assert (NoDup (srv_priority <$> MoreSamples.distinct)) as Hnd by compute_done.
  split; [exact Hnd|].
  exact (sort_rfc2782_distinct_priorities Sample.stub_draw MoreSamples.distinct
           [7] Hnd).
Defined.

Lemma walk_positive_draw_witness :
  0 < 1
  ∧ 1 ≤ sum_weights [mkSRV 0 0 5432 "a.example.com."; mkSRV 0 10 5432 "b.example.com."]
  ∧ (0 < srv_weight
           (walk 1 0 0 (mkSRV 0 0 5432 "a.example.com.")
              [mkSRV 0 10 5432 "b.example.com."]).2)%N.
Proof.
  assert (0 < 1) as H1 by lia.
  assert (1 ≤ sum_weights [mkSRV 0 0 5432 "a.example.com.";
                           mkSRV 0 10 5432 "b.example.com."]) as H2
    by (vm_compute; discriminate).
  split; [exact H1|]. split; [exact H2|].
  exact (walk_positive_draw _ _ 1 H1 H2).
Defined.

Lemma split_join_round_trip_witness :
  ["pg1.example.com"; "db2.example.com"] ≠ []
  ∧ Forall (λ w, PyStr.contains "," w = false)
      ["pg1.example.com"; "db2.example.com"]
  ∧ PyStr.split "," (PyStr.join "," ["pg1.example.com"; "db2.example.com"])
    = ["pg1.example.com"; "db2.example.com"].
Proof.
  assert (["pg1.example.com"; "db2.example.com"] ≠ []) as Hne by discriminate.
  assert (Forall (λ w, PyStr.contains "," w = false)
            ["pg1.example.com"; "db2.example.com"]) as Hl
    by (repeat constructor).
  split; [exact Hne|]. split; [exact Hl|].
  exact (split_join_round_trip "," _ Hne Hl).
Defined.
